(** * Verification of the polygon geometry suite of [validate_geometry.py]

    The development is a shallow embedding of the geometry functions of
    [src/validate_geometry.py] ([Vector2], [point_side_of_line],
    [segment_line_intersection], [polygon_area], [polygon_centroid] and
    [split_polygon_by_line]).

    Arithmetic model.  Python floats are idealised as exact rationals [Q]:
    there is no rounding, no overflow, no NaN and no infinity.  Operations of
    the source that can raise are modelled as fallible in an error monad
    ([result]): float division raises [ZeroDivisionError] on a zero divisor,
    [math.sqrt] raises [ValueError] on a negative argument and list indexing
    raises [IndexError] out of range.  [math.sqrt] has no exact counterpart on
    the rationals, so the only function that uses it ([Vector2_normalized])
    takes the (rounded) square root as a parameter [fsqrt].  Python integers
    (the result of [point_side_of_line]) are [Z] and list indices are [nat]. *)

From Stdlib Require Import QArith Qabs ZArith List Bool PeanoNat Lia Lqa.
Import ListNotations.
Open Scope Q_scope.

(** ** Exceptions and the error monad *)

Inductive exn : Type :=
| IndexError
| ZeroDivisionError
| ValueError.

Inductive result (A : Type) : Type :=
| Ok (a : A)
| Raise (e : exn).

Arguments Ok {A} a.
Arguments Raise {A} e.

Definition bind {A B : Type} (m : result A) (k : A -> result B) : result B :=
  match m with
  | Ok a => k a
  | Raise e => Raise e
  end.

Notation "v <- m ;; k" := (bind m (fun v => k))
  (at level 61, m at next level, right associativity).

(** [for i in l: s = body(s, i)] with exceptions propagating out of the loop. *)
Fixpoint for_each {S A : Type} (l : list A) (body : S -> A -> result S) (s : S)
  : result S :=
  match l with
  | [] => Ok s
  | i :: l' => s' <- body s i ;; for_each l' body s'
  end.

(** [for i in range(n)] *)
Definition for_range {S : Type} (n : nat) (body : S -> nat -> result S) (s : S)
  : result S :=
  for_each (seq 0 n) body s.

(** [l[i]] for a non-negative index. *)
Definition index {A : Type} (l : list A) (i : nat) : result A :=
  match nth_error l i with
  | Some a => Ok a
  | None => Raise IndexError
  end.

(** ** Float primitives, idealised on [Q] *)

Definition EPSILON : Q := 1 # 10000.

(** [a < b] *)
Definition Qltb (a b : Q) : bool :=
  match a ?= b with
  | Lt => true
  | _ => false
  end.

(** [a / b]: raises on a zero divisor. *)
Definition py_div (a b : Q) : result Q :=
  if Qeq_bool b 0 then Raise ZeroDivisionError else Ok (a / b).

(** [math.sqrt(a)]: raises on a negative argument, otherwise the value of the
    square-root function [fsqrt] that is in use. *)
Definition py_sqrt (fsqrt : Q -> Q) (a : Q) : result Q :=
  if Qltb a 0 then Raise ValueError else Ok (fsqrt a).

(** Python's [min(a, b)] returns [b] when [b < a] and [a] otherwise;
    [max(a, b)] returns [b] when [b > a] and [a] otherwise. *)
Definition py_min (a b : Q) : Q := if Qltb b a then b else a.
Definition py_max (a b : Q) : Q := if Qltb a b then b else a.

(** ** class Vector2 *)

Record Vector2 : Type := mkVector2 { x : Q; y : Q }.

Definition Vector2_sub (self other : Vector2) : Vector2 :=
  mkVector2 (x self - x other) (y self - y other).

Definition Vector2_add (self other : Vector2) : Vector2 :=
  mkVector2 (x self + x other) (y self + y other).

Definition Vector2_mul (self : Vector2) (scalar : Q) : Vector2 :=
  mkVector2 (x self * scalar) (y self * scalar).

Definition Vector2_dot (self other : Vector2) : Q :=
  x self * x other + y self * y other.

Definition Vector2_normalized (fsqrt : Q -> Q) (self : Vector2)
  : result Vector2 :=
  length <- py_sqrt fsqrt (x self * x self + y self * y self) ;;
  if Qltb length EPSILON then Ok (mkVector2 0 0)
  else
    nx <- py_div (x self) length ;;
    ny <- py_div (y self) length ;;
    Ok (mkVector2 nx ny).

Definition Vector2_distance_to (fsqrt : Q -> Q) (self other : Vector2)
  : result Q :=
  let dx := x self - x other in
  let dy := y self - y other in
  py_sqrt fsqrt (dx * dx + dy * dy).

(** ** point_side_of_line *)

Definition point_side_of_line (point line_point line_normal : Vector2) : Z :=
  let to_point := Vector2_sub point line_point in
  let distance := Vector2_dot to_point line_normal in
  if Qltb (Qabs distance) EPSILON then 0%Z
  else if Qltb 0 distance then 1%Z else (-1)%Z.

(** ** segment_line_intersection

    The outer [result] is the exception channel, the inner [option] is the
    source's [Optional[Vector2]] ([None] is "no intersection"). *)

Definition segment_line_intersection
  (seg_start seg_end line_point line_normal : Vector2)
  : result (option Vector2) :=
  let seg_dir := Vector2_sub seg_end seg_start in
  let denominator := Vector2_dot seg_dir line_normal in
  if Qltb (Qabs denominator) EPSILON then Ok None
  else
    t <- py_div (Vector2_dot (Vector2_sub line_point seg_start) line_normal)
                denominator ;;
    if Qltb t (- EPSILON) || Qltb (1 + EPSILON) t then Ok None
    else
      let t_clamped := py_max 0 (py_min 1 t) in
      Ok (Some (mkVector2 (x seg_start + x seg_dir * t_clamped)
                          (y seg_start + y seg_dir * t_clamped))).

(** ** polygon_area *)

Definition polygon_area (vertices : list Vector2) : result Q :=
  if (length vertices <? 3)%nat then Ok 0
  else
    let n := length vertices in
    area <- for_range n (fun area i =>
      let j := ((i + 1) mod n)%nat in
      vi <- index vertices i ;;
      vj <- index vertices j ;;
      let area := area + x vi * y vj in
      vj' <- index vertices j ;;
      vi' <- index vertices i ;;
      Ok (area - x vj' * y vi')) 0 ;;
    Ok (Qabs area / 2).

(** ** polygon_centroid *)

Definition polygon_centroid (vertices : list Vector2) : result Vector2 :=
  match length vertices with
  | 0%nat => Ok (mkVector2 0 0)
  | 1%nat => index vertices 0
  | 2%nat =>
      v0 <- index vertices 0 ;;
      v1 <- index vertices 1 ;;
      Ok (Vector2_mul (Vector2_add v0 v1) (1 # 2))
  | _ =>
      let n := length vertices in
      st <- for_range n (fun (st : Vector2 * Q) i =>
        let '(centroid, area) := st in
        let j := ((i + 1) mod n)%nat in
        vi <- index vertices i ;;
        vj <- index vertices j ;;
        let cross := x vi * y vj - x vj * y vi in
        let area := area + cross in
        Ok (Vector2_add centroid (Vector2_mul (Vector2_add vi vj) cross),
            area)) (mkVector2 0 0, 0) ;;
      let '(centroid, area) := st in
      let area := area * (1 # 2) in
      if Qltb (Qabs area) EPSILON then
        centroid <- for_each vertices
                      (fun c v => Ok (Vector2_add c v)) (mkVector2 0 0) ;;
        k <- py_div 1 (inject_Z (Z.of_nat n)) ;;
        Ok (Vector2_mul centroid k)
      else
        k <- py_div 1 (6 * area) ;;
        Ok (Vector2_mul centroid k)
  end.

(** ** split_polygon_by_line *)

Record SplitResult : Type := mkSplit {
  left : list Vector2;
  right : list Vector2;
  intersections : list Vector2
}.

Definition split_polygon_by_line
  (vertices : list Vector2) (line_point line_normal : Vector2)
  : result SplitResult :=
  if (length vertices <? 3)%nat then Ok (mkSplit [] [] [])
  else
    let n := length vertices in
    for_range n (fun st i =>
      current <- index vertices i ;;
      next_vertex <- index vertices ((i + 1) mod n)%nat ;;
      let current_side := point_side_of_line current line_point line_normal in
      let next_side := point_side_of_line next_vertex line_point line_normal in
      let left_verts :=
        if (0 <=? current_side)%Z then left st ++ [current] else left st in
      let right_verts :=
        if (current_side <=? 0)%Z then right st ++ [current] else right st in
      if (current_side * next_side <? 0)%Z then
        intersection <- segment_line_intersection
                          current next_vertex line_point line_normal ;;
        match intersection with
        | Some p =>
            Ok (mkSplit (left_verts ++ [p]) (right_verts ++ [p])
                        (intersections st ++ [p]))
        | None => Ok (mkSplit left_verts right_verts (intersections st))
        end
      else Ok (mkSplit left_verts right_verts (intersections st)))
      (mkSplit [] [] []).

(** * Mathematical counterparts

    The definitions below are not part of the source: they describe, by
    structural recursion on the vertex list, what the index loops of the source
    compute.  Each one is related to the embedded function by a lemma. *)

(** Exact equality of rationals is [==]; vectors are compared componentwise. *)
Definition veq (a b : Vector2) : Prop := x a == x b /\ y a == y b.

Definition Vector2_neg (v : Vector2) : Vector2 := mkVector2 (- x v) (- y v).

(** The signed (normal-scaled) distance of [point] to the line. *)
Definition line_distance (point line_point line_normal : Vector2) : Q :=
  Vector2_dot (Vector2_sub point line_point) line_normal.

(** The edges [(v_i, v_((i+1) mod n))] of the closed polygon, in order. *)
Definition edges (vs : list Vector2) : list (Vector2 * Vector2) :=
  combine vs (tl vs ++ firstn 1 vs).

Definition cross (e : Vector2 * Vector2) : Q :=
  x (fst e) * y (snd e) - x (snd e) * y (fst e).

Definition Qsum (l : list Q) : Q := fold_right Qplus 0 l.

Definition Vsum (l : list Vector2) : Vector2 :=
  fold_right Vector2_add (mkVector2 0 0) l.

(** The signed shoelace sum [sum (x_i*y_(i+1) - x_(i+1)*y_i)]. *)
Definition shoelace (vs : list Vector2) : Q := Qsum (map cross (edges vs)).

(** One iteration of the loop of [polygon_area], on the edge it visits. *)
Definition area_step (area : Q) (e : Vector2 * Vector2) : Q :=
  area + x (fst e) * y (snd e) - x (snd e) * y (fst e).

(** One iteration of the first loop of [polygon_centroid]. *)
Definition centroid_step (st : Vector2 * Q) (e : Vector2 * Vector2)
  : Vector2 * Q :=
  (Vector2_add (fst st) (Vector2_mul (Vector2_add (fst e) (snd e)) (cross e)),
   snd st + cross e).

(** The parameter [t] of [segment_line_intersection] and its result when no
    division fails. *)
Definition intersection_t (seg_start seg_end line_point line_normal : Vector2)
  : Q :=
  Vector2_dot (Vector2_sub line_point seg_start) line_normal
  / Vector2_dot (Vector2_sub seg_end seg_start) line_normal.

Definition point_at (seg_start seg_end : Vector2) (t : Q) : Vector2 :=
  mkVector2 (x seg_start + x (Vector2_sub seg_end seg_start) * t)
            (y seg_start + y (Vector2_sub seg_end seg_start) * t).

Definition intersect (seg_start seg_end line_point line_normal : Vector2)
  : option Vector2 :=
  let t := intersection_t seg_start seg_end line_point line_normal in
  if Qltb (Qabs (Vector2_dot (Vector2_sub seg_end seg_start) line_normal))
          EPSILON
  then None
  else if Qltb t (- EPSILON) || Qltb (1 + EPSILON) t then None
  else Some (point_at seg_start seg_end (py_max 0 (py_min 1 t))).

(** One iteration of the loop of [split_polygon_by_line]. *)
Definition split_step (line_point line_normal : Vector2)
  (st : SplitResult) (e : Vector2 * Vector2) : SplitResult :=
  let current_side := point_side_of_line (fst e) line_point line_normal in
  let next_side := point_side_of_line (snd e) line_point line_normal in
  let left_verts :=
    if (0 <=? current_side)%Z then left st ++ [fst e] else left st in
  let right_verts :=
    if (current_side <=? 0)%Z then right st ++ [fst e] else right st in
  if (current_side * next_side <? 0)%Z then
    match intersect (fst e) (snd e) line_point line_normal with
    | Some p =>
        mkSplit (left_verts ++ [p]) (right_verts ++ [p])
                (intersections st ++ [p])
    | None => mkSplit left_verts right_verts (intersections st)
    end
  else mkSplit left_verts right_verts (intersections st).

(** The sum of a weight [w] over the consecutive pairs of the path
    [a :: l], and over the consecutive pairs of a path. *)
Fixpoint chain (w : Vector2 * Vector2 -> Q) (a : Vector2) (l : list Vector2)
  : Q :=
  match l with
  | [] => 0
  | b :: l' => w (a, b) + chain w b l'
  end.

Definition path_sum (w : Vector2 * Vector2 -> Q) (p : list Vector2) : Q :=
  match p with
  | [] => 0
  | a :: l => chain w a l
  end.

(** The quantities of the centroid formula, as the specification words them:
    the signed area [A] (half the sum of the cross terms), the weighted sum
    [sum (v_i + v_(i+1)) * cross_i], the centroid [(1/(6A)) * sum ...], the
    unweighted mean of the vertices and the midpoint of two points. *)
Definition signed_area (vs : list Vector2) : Q := (1 # 2) * shoelace vs.

Definition weighted_term (e : Vector2 * Vector2) : Vector2 :=
  Vector2_mul (Vector2_add (fst e) (snd e)) (cross e).

Definition weighted_sum (vs : list Vector2) : Vector2 :=
  Vsum (map weighted_term (edges vs)).

Definition area_weighted_centroid (vs : list Vector2) : Vector2 :=
  Vector2_mul (weighted_sum vs) (1 / (6 * signed_area vs)).

Definition vertex_mean (vs : list Vector2) : Vector2 :=
  Vector2_mul (Vsum vs) (1 / inject_Z (Z.of_nat (length vs))).

Definition midpoint (a b : Vector2) : Vector2 :=
  mkVector2 ((x a + x b) / 2) ((y a + y b) / 2).

(** What one edge contributes to each output of [split_polygon_by_line]:
    the inserted crossing point, and the vertices appended to [left] and to
    [right]. *)
Definition emit_cut (line_point line_normal : Vector2)
  (e : Vector2 * Vector2) : list Vector2 :=
  if (point_side_of_line (fst e) line_point line_normal
      * point_side_of_line (snd e) line_point line_normal <? 0)%Z
  then match intersect (fst e) (snd e) line_point line_normal with
       | Some p => [p]
       | None => []
       end
  else [].

Definition emit_left (line_point line_normal : Vector2)
  (e : Vector2 * Vector2) : list Vector2 :=
  (if (0 <=? point_side_of_line (fst e) line_point line_normal)%Z
   then [fst e] else [])
  ++ emit_cut line_point line_normal e.

Definition emit_right (line_point line_normal : Vector2)
  (e : Vector2 * Vector2) : list Vector2 :=
  (if (point_side_of_line (fst e) line_point line_normal <=? 0)%Z
   then [fst e] else [])
  ++ emit_cut line_point line_normal e.

(** Clipping a path by a height function [h]: the points kept on the
    non-negative and on the non-positive side, the condition that no step of
    the path jumps from one strict side to the other, and the weight of the
    step from [a] to the first point of [X]. *)
Definition keep_nonneg (h : Vector2 -> Q) (p : Vector2) : bool :=
  Qle_bool 0 (h p).

Definition keep_nonpos (h : Vector2 -> Q) (p : Vector2) : bool :=
  Qle_bool (h p) 0.

Definition no_jump (h : Vector2 -> Q) (a b : Vector2) : Prop :=
  ~ (0 < h a /\ h b < 0) /\ ~ (h a < 0 /\ 0 < h b).

Fixpoint smooth (h : Vector2 -> Q) (a : Vector2) (l : list Vector2) : Prop :=
  match l with
  | [] => True
  | b :: l' => no_jump h a b /\ smooth h b l'
  end.

Definition link (w : Vector2 * Vector2 -> Q) (a : Vector2)
  (X : list Vector2) : Q :=
  match X with
  | [] => 0
  | z :: _ => w (a, z)
  end.

(** The cross term of an edge seen from the origin [o]. *)
Definition cross_from (o : Vector2) (e : Vector2 * Vector2) : Q :=
  cross (Vector2_sub (fst e) o, Vector2_sub (snd e) o).

(** The polygon with the crossing points inserted on the edges they cut. *)
Definition emit_all (line_point line_normal : Vector2)
  (e : Vector2 * Vector2) : list Vector2 :=
  fst e :: emit_cut line_point line_normal e.

(** A vertex that, when it is classified 0, lies exactly on the line. *)
Definition exact_boundary (line_point line_normal p : Vector2) : Prop :=
  point_side_of_line p line_point line_normal = 0%Z ->
  line_distance p line_point line_normal == 0.

(** [clamp(t, lo, hi)] as the specification words it. *)
Definition clamp (t lo hi : Q) : Q :=
  if Qltb t lo then lo else if Qltb hi t then hi else t.

(** ** Area conservation, as [test_area_conservation] measures it

    [diff = abs(left_area + right_area - original_area)]; the test asserts
    [diff < 1.0]. *)
Definition area_conservation_diff
  (vertices : list Vector2) (line_point line_normal : Vector2) : result Q :=
  original_area <- polygon_area vertices ;;
  r <- split_polygon_by_line vertices line_point line_normal ;;
  left_area <- polygon_area (left r) ;;
  right_area <- polygon_area (right r) ;;
  Ok (Qabs (left_area + right_area - original_area)).

Definition area_conserved_within (tolerance : Q)
  (vertices : list Vector2) (line_point line_normal : Vector2) : Prop :=
  exists diff,
    area_conservation_diff vertices line_point line_normal = Ok diff
    /\ diff < tolerance.

(** ** Simple polygons

    A decidable test of simplicity: two edges that are not neighbours have no
    common point, and two neighbouring edges have only their shared vertex in
    common. *)
Definition orient (a b c : Vector2) : Q :=
  (x b - x a) * (y c - y a) - (x c - x a) * (y b - y a).

Definition Qsign (a : Q) : Z := Z.sgn (Qnum a).

Definition between (a b p : Q) : bool :=
  (Qle_bool a p && Qle_bool p b) || (Qle_bool b p && Qle_bool p a).

(** [p] is a point of the closed segment from [a] to [b]. *)
Definition on_segment (a b p : Vector2) : bool :=
  Qeq_bool (orient a b p) 0
  && between (x a) (x b) (x p) && between (y a) (y b) (y p).

(** The closed segments [e] and [f] have a common point. *)
Definition segments_meet (e f : Vector2 * Vector2) : bool :=
  let d1 := Qsign (orient (fst f) (snd f) (fst e)) in
  let d2 := Qsign (orient (fst f) (snd f) (snd e)) in
  let d3 := Qsign (orient (fst e) (snd e) (fst f)) in
  let d4 := Qsign (orient (fst e) (snd e) (snd f)) in
  ((d1 * d2 <? 0)%Z && (d3 * d4 <? 0)%Z)
  || on_segment (fst f) (snd f) (fst e)
  || on_segment (fst f) (snd f) (snd e)
  || on_segment (fst e) (snd e) (fst f)
  || on_segment (fst e) (snd e) (snd f).

(** The consecutive edges [a -> b] and [b -> c] meet at [b] only. *)
Definition corner_ok (a b c : Vector2) : bool :=
  negb (on_segment a b c) && negb (on_segment b c a).

Definition edge_pair_ok (vs : list Vector2) (i j : nat) : bool :=
  let d := (mkVector2 0 0, mkVector2 0 0) in
  let ei := nth i (edges vs) d in
  let ej := nth j (edges vs) d in
  if (j =? i + 1)%nat then corner_ok (fst ei) (snd ei) (snd ej)
  else if ((i =? 0) && (j + 1 =? length vs))%nat
       then corner_ok (fst ej) (snd ej) (snd ei)
       else negb (segments_meet ei ej).

Definition is_simple (vs : list Vector2) : bool :=
  (3 <=? length vs)%nat
  && forallb (fun i =>
       forallb (fun j => if (i <? j)%nat then edge_pair_ok vs i j else true)
               (seq 0 (length vs)))
     (seq 0 (length vs)).

(** The line has vertices of the polygon strictly on both of its sides. *)
Definition line_crosses (vs : list Vector2) (line_point line_normal : Vector2)
  : bool :=
  existsb (fun v => (point_side_of_line v line_point line_normal =? 1)%Z) vs
  && existsb (fun v => (point_side_of_line v line_point line_normal =? -1)%Z)
       vs.

(** ** Fixtures of the acceptance tests *)

Definition square : list Vector2 :=
  [mkVector2 0 0; mkVector2 100 0; mkVector2 100 100; mkVector2 0 100].

(** A U-shaped simple polygon, 30000 wide, whose two prongs cross the line
    [y = 0]; it has a vertex on each of the four crossings, 1/16384 (less than
    [EPSILON]) above or below the line. *)
Definition u_polygon : list Vector2 :=
  [mkVector2 0 (-10); mkVector2 30000 (-10);
   mkVector2 30000 (1 # 16384); mkVector2 30000 10; mkVector2 20000 10;
   mkVector2 20000 (- (1 # 16384)); mkVector2 20000 (-5);
   mkVector2 10000 (-5);
   mkVector2 10000 (- (1 # 16384)); mkVector2 10000 10; mkVector2 0 10;
   mkVector2 0 (1 # 16384)].

(** A square root on the rationals, rounded down to six decimals. *)
Definition sqrt_6 (a : Q) : Q :=
  Z.sqrt (Qnum a * 1000000000000 / Zpos (Qden a)) # 1000000.


(** * Further counterparts, for the properties beyond the acceptance tests *)

(** Results of [segment_line_intersection] compared up to exact equality of
    the coordinates. *)
Definition opt_veq (r r' : option Vector2) : Prop :=
  match r, r' with
  | Some p, Some p' => veq p p'
  | None, None => True
  | _, _ => False
  end.

(** Lists of points compared pointwise up to exact equality of the
    coordinates. *)
Definition list_veq (l l' : list Vector2) : Prop := Forall2 veq l l'.

(** The polygon moved by the vector [d], scaled by [k], and started one
    vertex later. *)
Definition translate (d : Vector2) (vs : list Vector2) : list Vector2 :=
  map (fun v => Vector2_add v d) vs.

Definition scale (k : Q) (vs : list Vector2) : list Vector2 :=
  map (fun v => Vector2_mul v k) vs.

Definition rotate_start (vs : list Vector2) : list Vector2 :=
  tl vs ++ firstn 1 vs.

(** The axis-aligned rectangle of the acceptance tests, with its corner at
    [(x0, y0)], width [w] and height [h]. *)
Definition rectangle (x0 y0 w h : Q) : list Vector2 :=
  [mkVector2 x0 y0; mkVector2 (x0 + w) y0;
   mkVector2 (x0 + w) (y0 + h); mkVector2 x0 (y0 + h)].

(** The vertices that [point_side_of_line] classifies on the boundary. *)
Definition boundary_vertices (vs : list Vector2)
  (line_point line_normal : Vector2) : list Vector2 :=
  filter (fun v => (point_side_of_line v line_point line_normal =? 0)%Z) vs.

(** * The level validator of [tools/validate_json.py]

    [validate_level] works on whatever [json.load] returns, so the model
    starts from a type of JSON values and the dynamically typed operations
    the source applies to them.  Numbers are exact rationals as before (there
    is no NaN).  An object is an association list in the order of the file;
    [json.load] keeps one entry per key, so the objects of real files have
    distinct keys.  Reading the file is not modelled: its outcome is the
    argument ([load_result]).  The text that Python's formatting gives a value
    inside an f-string is a parameter ([fmt]). *)
From Stdlib Require String.

Module ValidateJson.

Import String.

(** The values that [json.load] returns.  An object is the list of its items
    in insertion order, as [dict.items()] gives them; the keys of a Python
    dict are pairwise distinct. *)
#[local] Unset Elimination Schemes.

Inductive json : Type :=
| JNull
| JBool (b : bool)
| JNum (q : Q)
| JStr (s : string)
| JList (l : list json)
| JDict (d : list (string * json)).

#[local] Set Elimination Schemes.

(** The exceptions that the operations of [validate_level] can raise. *)
Inductive py_exn : Type :=
| TypeError
| KeyError
| AttributeError.

Inductive outcome (A : Type) : Type :=
| Done (a : A)
| Throw (e : py_exn).

Arguments Done {A} a.
Arguments Throw {A} e.

Definition obind {A B : Type} (m : outcome A) (k : A -> outcome B)
  : outcome B :=
  match m with
  | Done a => k a
  | Throw e => Throw e
  end.

Notation "v <-- m ;; k" := (obind m (fun v => k))
  (at level 61, m at next level, right associativity).

Fixpoint ofor_each {S A : Type} (l : list A) (body : S -> A -> outcome S)
  (s : S) : outcome S :=
  match l with
  | [] => Done s
  | i :: l' => s' <-- body s i ;; ofor_each l' body s'
  end.

(** [needle in s] for two strings. *)
Fixpoint is_substring (needle s : string) : bool :=
  prefix needle s
  || match s with
     | EmptyString => false
     | String _ s' => is_substring needle s'
     end.

(** [d.get(key)] on an object: the first entry with that key. *)
Fixpoint lookup (key : string) (d : list (string * json)) : option json :=
  match d with
  | [] => None
  | (k, v) :: d' => if String.eqb k key then Some v else lookup key d'
  end.

(** [key in container]: key membership for an object, element equality for
    a list (only a string equals a string), substring test for a string;
    the other values are not iterable. *)
Definition contains (key : string) (container : json) : outcome bool :=
  match container with
  | JDict d => Done (match lookup key d with Some _ => true | None => false end)
  | JList l =>
      Done (existsb (fun v => match v with
                              | JStr s => String.eqb s key
                              | _ => false
                              end) l)
  | JStr s => Done (is_substring key s)
  | JNull | JBool _ | JNum _ => Throw TypeError
  end.

(** [container[key]] for a string key. *)
Definition getitem (container : json) (key : string) : outcome json :=
  match container with
  | JDict d =>
      match lookup key d with
      | Some v => Done v
      | None => Throw KeyError
      end
  | _ => Throw TypeError
  end.

(** The number that a value is in a comparison with a number: [True] is 1
    and [False] is 0; comparing anything else with a number raises. *)
Definition as_number (v : json) : outcome Q :=
  match v with
  | JNum q => Done q
  | JBool true => Done 1
  | JBool false => Done 0
  | _ => Throw TypeError
  end.

(** [a < b] and [a <= b], for the comparisons of the source, which all have a
    number on one side at least. *)
Definition py_lt (a b : json) : outcome bool :=
  qa <-- as_number a ;; qb <-- as_number b ;; Done (Qltb qa qb).

Definition py_le (a b : json) : outcome bool :=
  qa <-- as_number a ;; qb <-- as_number b ;; Done (negb (Qltb qb qa)).

(** [v == 3]: never raises; [True] and [False] are 1 and 0. *)
Definition is_three (v : json) : bool :=
  match v with
  | JNum q => Qeq_bool q 3
  | _ => false
  end.

(** Truth value of a JSON value. *)
Definition truthy (v : json) : bool :=
  match v with
  | JNull => false
  | JBool b => b
  | JNum q => negb (Qeq_bool q 0)
  | JStr s => negb (String.eqb s "")
  | JList l => match l with [] => false | _ => true end
  | JDict d => match d with [] => false | _ => true end
  end.

(** [v.items()]: only an object has the method. *)
Definition items (v : json) : outcome (list (string * json)) :=
  match v with
  | JDict d => Done d
  | _ => Throw AttributeError
  end.

(** What opening and parsing the file gave. *)
Inductive load_result : Type :=
| LoadJSONDecodeError (e : string)
| LoadException (e : string)
| Loaded (data : json).

Definition required_fields : list string :=
  ["level_id"; "level_name"; "grid_size"; "player_start_position";
   "cell_data"]%string.

(** ['x' not in v or 'y' not in v], evaluated left to right. *)
Definition lacks_x_or_y (v : json) : outcome bool :=
  cx <-- contains "x" v ;;
  if negb cx then Done true
  else cy <-- contains "y" v ;; Done (negb cy).

Section Validate.

Variable fmt : json -> string.

(** [# Check required fields] *)
Definition check_required (data : json) (errors : list string)
  : outcome (list string) :=
  ofor_each required_fields (fun errors field =>
    c <-- contains field data ;;
    if negb c
    then Done (errors ++ [("Missing required field: " ++ field)%string])
    else Done errors) errors.

(** [# Validate grid_size] *)
Definition check_grid_size (data : json) (errors : list string)
  : outcome (list string) :=
  c <-- contains "grid_size" data ;;
  if c then
    gs <-- getitem data "grid_size" ;;
    missing <-- lacks_x_or_y gs ;;
    if missing
    then Done (errors ++ ["grid_size must have 'x' and 'y' fields"%string])
    else
      gx <-- getitem gs "x" ;;
      bx <-- py_le gx (JNum 0) ;;
      nonpos <-- (if bx then Done true
                  else gy <-- getitem gs "y" ;; py_le gy (JNum 0)) ;;
      if nonpos then
        gx' <-- getitem gs "x" ;;
        gy' <-- getitem gs "y" ;;
        Done (errors ++ [("grid_size must be positive (got " ++ fmt gx'
                          ++ "x" ++ fmt gy' ++ ")")%string])
      else Done errors
  else Done errors.

(** [# Validate player_start_position] *)
Definition check_player_start (data : json) (errors : list string)
  : outcome (list string) :=
  c <-- contains "player_start_position" data ;;
  if c then
    psp <-- getitem data "player_start_position" ;;
    missing <-- lacks_x_or_y psp ;;
    if missing
    then Done (errors
               ++ ["player_start_position must have 'x' and 'y' fields"
                   %string])
    else
      cg <-- contains "grid_size" data ;;
      if cg then
        gs <-- getitem data "grid_size" ;;
        outside <--
          (px <-- getitem psp "x" ;;
           b1 <-- py_lt px (JNum 0) ;;
           if b1 then Done true
           else
             px <-- getitem psp "x" ;;
             gx <-- getitem gs "x" ;;
             b2 <-- py_le gx px ;;
             if b2 then Done true
             else
               py <-- getitem psp "y" ;;
               b3 <-- py_lt py (JNum 0) ;;
               if b3 then Done true
               else
                 py <-- getitem psp "y" ;;
                 gy <-- getitem gs "y" ;;
                 py_le gy py) ;;
        if outside then
          px <-- getitem psp "x" ;;
          py <-- getitem psp "y" ;;
          Done (errors ++ [("player_start_position (" ++ fmt px ++ ", "
                            ++ fmt py ++ ") is outside grid bounds")%string])
        else Done errors
      else Done errors
  else Done errors.

(** [# Check for at least one goal] *)
Definition check_goal (data : json) (errors : list string)
  : outcome (list string) :=
  c <-- contains "cell_data" data ;;
  if c then
    cell_data <-- getitem data "cell_data" ;;
    cells <-- items cell_data ;;
    let has_goal := existsb (fun cell => is_three (snd cell)) cells in
    if negb has_goal
    then Done (errors ++ ["No goal cell defined (cell_type = 3)"%string])
    else Done errors
  else Done errors.

(** [# Check for level ID] *)
Definition check_level_id (data : json) (warnings : list string)
  : outcome (list string) :=
  c <-- contains "level_id" data ;;
  if c then
    level_id <-- getitem data "level_id" ;;
    if negb (truthy level_id)
    then Done (warnings ++ ["Level has empty ID"%string])
    else Done warnings
  else Done warnings.

(** [# Check difficulty] *)
Definition check_difficulty (data : json) (warnings : list string)
  : outcome (list string) :=
  c <-- contains "difficulty" data ;;
  if c then
    d <-- getitem data "difficulty" ;;
    low <-- py_lt d (JNum 1) ;;
    out <-- (if low then Done true
             else d <-- getitem data "difficulty" ;; py_lt (JNum 5) d) ;;
    if out then
      d <-- getitem data "difficulty" ;;
      Done (warnings ++ [("Difficulty " ++ fmt d
                          ++ " is outside typical range (1-5)")%string])
    else Done warnings
  else Done warnings.

(** [validate_level(file_path)], given what loading the file gave:
    [(valid, errors, warnings)]. *)
Definition validate_level (file : load_result)
  : outcome (bool * list string * list string) :=
  match file with
  | LoadJSONDecodeError e =>
      Done (false, [("JSON parse error: " ++ e)%string], [])
  | LoadException e =>
      Done (false, [("Error reading file: " ++ e)%string], [])
  | Loaded data =>
      errors <-- check_required data [] ;;
      errors <-- check_grid_size data errors ;;
      errors <-- check_player_start data errors ;;
      errors <-- check_goal data errors ;;
      warnings <-- check_level_id data [] ;;
      warnings <-- check_difficulty data warnings ;;
      Done ((List.length errors =? 0)%nat, errors, warnings)
  end.

(** The counters that [main] prints in its summary, and its exit code. *)
Record summary : Type := mkSummary {
  total_levels : nat;
  valid_levels : nat;
  invalid_levels : nat;
  total_warnings : nat
}.

(** [main()], given the state of [levels/campaign]: [None] when the directory
    does not exist, otherwise the outcome of loading each [*.json] file, in
    the sorted order of the names.  The result is the exit code with the
    counters of the summary ([None] for the two early returns, which print no
    summary); what is printed on the way is not modelled. *)
Definition main (levels_dir : option (list load_result))
  : outcome (Z * option summary) :=
  match levels_dir with
  | None => Done (1%Z, None)
  | Some level_files =>
      match level_files with
      | [] => Done (1%Z, None)
      | _ =>
          s <-- ofor_each level_files (fun s level_file =>
                  res <-- validate_level level_file ;;
                  let '(valid, errors, warnings) := res in
                  let total := (total_levels s + 1)%nat in
                  let s' :=
                    if valid
                    then mkSummary total (valid_levels s + 1)
                                   (invalid_levels s) (total_warnings s)
                    else mkSummary total (valid_levels s)
                                   (invalid_levels s + 1) (total_warnings s) in
                  match warnings with
                  | [] => Done s'
                  | _ =>
                      Done (mkSummary (total_levels s') (valid_levels s')
                              (invalid_levels s')
                              (total_warnings s' + List.length warnings))
                  end)
                (mkSummary 0 0 0 0) ;;
          Done (if (invalid_levels s =? 0)%nat then 0%Z else 1%Z, Some s)
      end
  end.

End Validate.

(** ** Well-formed levels, as the validation reads them *)

Definition has_key (key : string) (d : list (string * json)) : Prop :=
  lookup key d <> None.

(** An object with numeric entries ["x"] and ["y"]. *)
Definition point_of (v : json) (px py : Q) : Prop :=
  exists d vx vy,
    v = JDict d /\ lookup "x" d = Some vx /\ lookup "y" d = Some vy
    /\ as_number vx = Done px /\ as_number vy = Done py.

(** The conditions under which a level object has no error. *)
Definition level_ok (d : list (string * json)) : Prop :=
  (forall f, In f required_fields -> has_key f d)
  /\ (exists gs psp gx gy px py cells,
        lookup "grid_size" d = Some gs
        /\ lookup "player_start_position" d = Some psp
        /\ point_of gs gx gy /\ point_of psp px py
        /\ 0 < gx /\ 0 < gy
        /\ 0 <= px < gx /\ 0 <= py < gy
        /\ lookup "cell_data" d = Some (JDict cells)
        /\ exists pos cell, In (pos, cell) cells /\ is_three cell = true).

(** A level object whose entries have the types that the validation expects,
    where they are present: [grid_size] and [player_start_position] are
    objects with numeric ["x"] and ["y"], [cell_data] is an object and
    [difficulty] is a number. *)
Definition schema_typed (d : list (string * json)) : Prop :=
  (forall gs, lookup "grid_size" d = Some gs ->
              exists gx gy, point_of gs gx gy)
  /\ (forall psp, lookup "player_start_position" d = Some psp ->
                  exists px py, point_of psp px py)
  /\ (forall cd, lookup "cell_data" d = Some cd ->
                 exists cells, cd = JDict cells)
  /\ (forall v, lookup "difficulty" d = Some v ->
                exists q, as_number v = Done q).

(** The first component of what [validate_level] returned. *)
Definition is_valid (r : outcome (bool * list string * list string)) : bool :=
  match r with
  | Done (valid, _, _) => valid
  | Throw _ => false
  end.

(** The number of warnings that [validate_level] returned. *)
Definition warning_count (r : outcome (bool * list string * list string))
  : nat :=
  match r with
  | Done (_, _, warnings) => List.length warnings
  | Throw _ => 0%nat
  end.

(** ** Sample inputs *)

Definition sample_fmt (v : json) : string := "?".

Definition sample_level : list (string * json) :=
  [("level_id", JStr "level_01");
   ("level_name", JStr "First Steps");
   ("grid_size", JDict [("x", JNum 8); ("y", JNum 6)]);
   ("player_start_position", JDict [("x", JNum 1); ("y", JNum 4)]);
   ("cell_data", JDict [("(1, 4)", JNum 0); ("(6, 4)", JNum 3)]);
   ("difficulty", JNum 1)]%string.

(** The sample level with the player outside of the grid and a difficulty
    outside of the typical range. *)
Definition sample_level_outside : list (string * json) :=
  [("level_id", JStr "level_02");
   ("level_name", JStr "Out of Bounds");
   ("grid_size", JDict [("x", JNum 8); ("y", JNum 6)]);
   ("player_start_position", JDict [("x", JNum 8); ("y", JNum 4)]);
   ("cell_data", JDict [("(6, 4)", JNum 3)]);
   ("difficulty", JNum 7)]%string.

(** The sample level with a [grid_size] that has no ["x"]. *)
Definition sample_level_no_x : list (string * json) :=
  [("level_id", JStr "level_03");
   ("level_name", JStr "No Width");
   ("grid_size", JDict [("y", JNum 6)]);
   ("player_start_position", JDict [("x", JNum 1); ("y", JNum 4)]);
   ("cell_data", JDict [("(6, 4)", JNum 3)])]%string.

(** The sample level with its difficulty given as a string. *)
Definition sample_level_text_difficulty : list (string * json) :=
  [("level_id", JStr "level_04");
   ("level_name", JStr "Hard");
   ("grid_size", JDict [("x", JNum 8); ("y", JNum 6)]);
   ("player_start_position", JDict [("x", JNum 1); ("y", JNum 4)]);
   ("cell_data", JDict [("(6, 4)", JNum 3)]);
   ("difficulty", JStr "hard")]%string.

End ValidateJson.
(** * Sanity checks: acceptance tests of the source *)

Example test_point_side_pos :
  point_side_of_line (mkVector2 10 0) (mkVector2 0 0) (mkVector2 1 0) = 1%Z.
Proof. reflexivity. Qed.

Example test_point_side_neg :
  point_side_of_line (mkVector2 (-10) 0) (mkVector2 0 0) (mkVector2 1 0)
  = (-1)%Z.
Proof. reflexivity. Qed.

Example test_point_side_on :
  point_side_of_line (mkVector2 0 100) (mkVector2 0 0) (mkVector2 1 0) = 0%Z.
Proof. reflexivity. Qed.

Example test_segment_intersection :
  exists p,
    segment_line_intersection (mkVector2 0 0) (mkVector2 10 10)
      (mkVector2 5 0) (mkVector2 1 0) = Ok (Some p)
    /\ veq p (mkVector2 5 5).
Proof. eexists. split; [reflexivity|]. split; reflexivity. Qed.

Example test_segment_parallel :
  segment_line_intersection (mkVector2 0 0) (mkVector2 10 0)
    (mkVector2 0 5) (mkVector2 0 1)
  = Ok None.
Proof. reflexivity. Qed.

Example test_area_square :
  exists a, polygon_area square = Ok a /\ a == 10000.
Proof. eexists. split; reflexivity. Qed.

Example test_area_triangle :
  exists a,
    polygon_area [mkVector2 0 0; mkVector2 100 0; mkVector2 50 100] = Ok a
    /\ a == 5000.
Proof. eexists. split; reflexivity. Qed.

Example test_centroid_offset_square :
  exists c,
    polygon_centroid [mkVector2 100 100; mkVector2 200 100;
                      mkVector2 200 200; mkVector2 100 200] = Ok c
    /\ veq c (mkVector2 150 150).
Proof. eexists. split; [reflexivity|]. split; reflexivity. Qed.

Example test_split_vertical :
  exists r,
    split_polygon_by_line square (mkVector2 50 0) (mkVector2 1 0) = Ok r
    /\ length (left r) = 4%nat /\ length (right r) = 4%nat
    /\ length (intersections r) = 2%nat.
Proof. eexists. repeat split. Qed.

Example test_split_horizontal :
  exists r,
    split_polygon_by_line square (mkVector2 0 50) (mkVector2 0 1) = Ok r
    /\ length (left r) = 4%nat /\ length (right r) = 4%nat
    /\ length (intersections r) = 2%nat.
Proof. eexists. repeat split. Qed.

(** * Properties *)

(** ** The primitives *)

Lemma Qltb_true (a b : Q) : Qltb a b = true <-> a < b.
Proof.
  unfold Qltb. rewrite Qlt_alt. destruct (a ?= b); intuition congruence.
Qed.

Lemma Qltb_false (a b : Q) : Qltb a b = false <-> b <= a.
Proof.
  rewrite <- Bool.not_true_iff_false, Qltb_true. split.
  - apply Qnot_lt_le.
  - apply Qle_not_lt.
Qed.

Lemma Qltb_spec (a b : Q) : reflect (a < b) (Qltb a b).
Proof.
  destruct (Qltb a b) eqn:E; constructor.
  - now apply Qltb_true.
  - apply Qle_not_lt. now apply Qltb_false.
Qed.

#[global] Instance Qltb_comp : Proper (Qeq ==> Qeq ==> eq) Qltb.
Proof.
  intros a a' Ha b b' Hb. unfold Qltb. now rewrite Ha, Hb.
Qed.

Lemma EPSILON_pos : 0 < EPSILON.
Proof. reflexivity. Qed.

Lemma py_div_ok (a b : Q) : ~ b == 0 -> py_div a b = Ok (a / b).
Proof.
  intros Hb. unfold py_div.
  destruct (Qeq_bool b 0) eqn:E; [|reflexivity].
  apply Qeq_bool_iff in E. contradiction.
Qed.

Lemma py_min_spec (a b : Q) :
  (b < a -> py_min a b = b) /\ (a <= b -> py_min a b = a).
Proof.
  unfold py_min. destruct (Qltb_spec b a); split; intros; try reflexivity.
  - exfalso. eapply Qlt_not_le; eauto.
  - contradiction.
Qed.

Lemma py_max_spec (a b : Q) :
  (a < b -> py_max a b = b) /\ (b <= a -> py_max a b = a).
Proof.
  unfold py_max. destruct (Qltb_spec a b); split; intros; try reflexivity.
  - exfalso. eapply Qlt_not_le; eauto.
  - contradiction.
Qed.

(** The clamp [max(0.0, min(1.0, t))] lands in [[0, 1]] and leaves a [t] that
    is already there unchanged. *)
Lemma clamp_range (t : Q) :
  0 <= py_max 0 (py_min 1 t) <= 1.
Proof.
  unfold py_max, py_min.
  destruct (Qltb_spec t 1) as [H1|H1];
    [destruct (Qltb_spec 0 t) as [H0|H0] | destruct (Qltb_spec 0 1) as [H0|H0]];
    lra.
Qed.

Lemma clamp_inside (t : Q) :
  0 <= t <= 1 -> py_max 0 (py_min 1 t) == t.
Proof.
  intros [Ht0 Ht1]. unfold py_max, py_min.
  destruct (Qltb_spec t 1) as [H1|H1];
    [destruct (Qltb_spec 0 t) as [H0|H0] | destruct (Qltb_spec 0 1) as [H0|H0]];
    lra.
Qed.

(** ** Loops that do not raise *)

Lemma for_each_ok {S A : Type} (l : list A) (body : S -> A -> result S)
      (f : S -> A -> S) :
  (forall s i, In i l -> body s i = Ok (f s i)) ->
  forall s, for_each l body s = Ok (fold_left f l s).
Proof.
  induction l as [|i l IH]; intros Hbody s; simpl.
  - reflexivity.
  - rewrite Hbody by (now left). simpl. apply IH.
    intros s' j Hj. apply Hbody. now right.
Qed.

Lemma for_range_ok {S : Type} (n : nat) (body : S -> nat -> result S)
      (f : S -> nat -> S) :
  (forall s i, (i < n)%nat -> body s i = Ok (f s i)) ->
  forall s, for_range n body s = Ok (fold_left f (seq 0 n) s).
Proof.
  intros Hbody s. unfold for_range. apply for_each_ok.
  intros s' i Hi. apply Hbody. apply in_seq in Hi. lia.
Qed.

Lemma index_ok {A : Type} (l : list A) (i : nat) (d : A) :
  (i < length l)%nat -> index l i = Ok (nth i l d).
Proof.
  intros Hi. unfold index.
  destruct (nth_error l i) as [a|] eqn:E.
  - f_equal. symmetry. now apply nth_error_nth.
  - apply nth_error_None in E. lia.
Qed.

(** ** The index loops visit the edges of the polygon *)

Lemma edges_length (vs : list Vector2) : length (edges vs) = length vs.
Proof.
  unfold edges. rewrite length_combine, length_app.
  destruct vs as [|v0 vs']; [reflexivity|].
  cbn [tl firstn length]. lia.
Qed.

Lemma edges_by_index (vs : list Vector2) (d : Vector2) :
  map (fun i => (nth i vs d, nth ((i + 1) mod length vs) vs d))
      (seq 0 (length vs))
  = edges vs.
Proof.
  set (f := fun i => (nth i vs d, nth ((i + 1) mod length vs) vs d)).
  apply (nth_ext _ _ (d, d) (d, d)).
  - now rewrite length_map, length_seq, edges_length.
  - intros i Hi. rewrite length_map, length_seq in Hi.
    rewrite (nth_indep _ _ (f 0%nat)) by now rewrite length_map, length_seq.
    rewrite map_nth, seq_nth by assumption. unfold f. simpl.
    unfold edges. rewrite combine_nth.
    2:{ rewrite length_app. destruct vs; simpl in *; lia. }
    f_equal.
    destruct vs as [|v0 vs']; [simpl in Hi; lia|].
    cbn [List.tl firstn length] in *.
    destruct (Nat.eq_dec i (length vs')) as [->|Hne].
    + replace (length vs' + 1)%nat with (S (length vs')) by lia.
      rewrite Nat.Div0.mod_same, app_nth2 by lia.
      now rewrite Nat.sub_diag.
    + rewrite Nat.mod_small, app_nth1 by lia.
      now replace (i + 1)%nat with (S i) by lia.
Qed.

Lemma edges_fst (vs : list Vector2) : map fst (edges vs) = vs.
Proof.
  unfold edges.
  assert (H : length vs = length (tl vs ++ firstn 1 vs)).
  { rewrite length_app. destruct vs; simpl; lia. }
  revert H. generalize (tl vs ++ firstn 1 vs). clear.
  induction vs as [|v vs IH]; intros [|w ws] H; simpl in *;
    try reflexivity; try discriminate.
  f_equal. apply IH. lia.
Qed.

(** A loop over [range(n)] whose body reads [vertices[i]] and
    [vertices[(i+1) % n]] is a fold over the edges. *)
Lemma fold_by_index {S : Type} (f : S -> Vector2 * Vector2 -> S)
      (vs : list Vector2) (d : Vector2) (s : S) :
  fold_left (fun s i => f s (nth i vs d, nth ((i + 1) mod length vs) vs d))
            (seq 0 (length vs)) s
  = fold_left f (edges vs) s.
Proof.
  rewrite <- (edges_by_index vs d).
  generalize (seq 0 (length vs)). intros l. revert s.
  induction l as [|i l IH]; intros s; simpl; [reflexivity|]. apply IH.
Qed.

Lemma succ_mod_lt (i n : nat) : (i < n)%nat -> ((i + 1) mod n < n)%nat.
Proof. intros Hi. apply Nat.mod_upper_bound. lia. Qed.

(** ** The embedded functions never raise *)

Lemma Qabs_ge_nonzero (a : Q) : EPSILON <= Qabs a -> ~ a == 0.
Proof.
  intros H E. rewrite E in H. apply (Qle_not_lt _ _ H). reflexivity.
Qed.

Lemma segment_line_intersection_ok (a b q n : Vector2) :
  segment_line_intersection a b q n = Ok (intersect a b q n).
Proof.
  unfold segment_line_intersection, intersect, intersection_t, point_at.
  destruct (Qltb_spec (Qabs (Vector2_dot (Vector2_sub b a) n)) EPSILON)
    as [Hpar|Hpar]; [reflexivity|].
  rewrite py_div_ok by (apply Qabs_ge_nonzero; now apply Qnot_lt_le).
  cbn [bind].
  destruct (_ || _); reflexivity.
Qed.

Lemma polygon_area_loop (vs : list Vector2) :
  (3 <= length vs)%nat ->
  polygon_area vs = Ok (Qabs (fold_left area_step (edges vs) 0) / 2).
Proof.
  intros Hn. unfold polygon_area.
  destruct (Nat.ltb_spec (length vs) 3) as [Hlt|_]; [lia|].
  pose (d := mkVector2 0 0).
  rewrite (for_range_ok _ _
    (fun area i =>
       area_step area (nth i vs d, nth ((i + 1) mod length vs) vs d))).
  - cbn [bind]. now rewrite (fold_by_index area_step).
  - intros area i Hi.
    rewrite !(index_ok vs i d), !(index_ok vs _ d)
      by (try apply succ_mod_lt; assumption).
    reflexivity.
Qed.

Lemma split_polygon_loop (vs : list Vector2) (q n : Vector2) :
  (3 <= length vs)%nat ->
  split_polygon_by_line vs q n
  = Ok (fold_left (split_step q n) (edges vs) (mkSplit [] [] [])).
Proof.
  intros Hn. unfold split_polygon_by_line.
  destruct (Nat.ltb_spec (length vs) 3) as [Hlt|_]; [lia|].
  pose (d := mkVector2 0 0).
  rewrite (for_range_ok _ _
    (fun st i =>
       split_step q n st (nth i vs d, nth ((i + 1) mod length vs) vs d))).
  - now rewrite (fold_by_index (split_step q n)).
  - intros st i Hi.
    rewrite (index_ok vs i d), (index_ok vs _ d)
      by (try apply succ_mod_lt; assumption).
    cbn [bind]. unfold split_step. cbn [fst snd].
    rewrite segment_line_intersection_ok. cbn [bind].
    destruct (_ <? 0)%Z; [|reflexivity].
    destruct (intersect _ _ _ _); reflexivity.
Qed.

Lemma centroid_loop (vs : list Vector2) :
  (3 <= length vs)%nat ->
  for_range (length vs) (fun (st : Vector2 * Q) i =>
        let '(centroid, area) := st in
        let j := ((i + 1) mod length vs)%nat in
        vi <- index vs i ;;
        vj <- index vs j ;;
        let cross := x vi * y vj - x vj * y vi in
        let area := area + cross in
        Ok (Vector2_add centroid (Vector2_mul (Vector2_add vi vj) cross),
            area)) (mkVector2 0 0, 0)
  = Ok (fold_left centroid_step (edges vs) (mkVector2 0 0, 0)).
Proof.
  intros Hn. pose (d := mkVector2 0 0).
  rewrite (for_range_ok _ _
    (fun st i =>
       centroid_step st (nth i vs d, nth ((i + 1) mod length vs) vs d))).
  - now rewrite (fold_by_index centroid_step).
  - intros [c a] i Hi. cbv beta iota zeta.
    rewrite (index_ok vs i d), (index_ok vs _ d)
      by (try apply succ_mod_lt; assumption).
    reflexivity.
Qed.

(** ** point_side_of_line *)

(** The three classes, in terms of the signed distance. *)
Lemma point_side_cases (p q n : Vector2) :
  (point_side_of_line p q n = 0%Z
   /\ - EPSILON < line_distance p q n < EPSILON)
  \/ (point_side_of_line p q n = 1%Z /\ EPSILON <= line_distance p q n)
  \/ (point_side_of_line p q n = (-1)%Z /\ line_distance p q n <= - EPSILON).
Proof.
  unfold point_side_of_line. fold (line_distance p q n).
  set (d := line_distance p q n).
  destruct (Qltb_spec (Qabs d) EPSILON) as [Hb|Hb].
  - left. split; [reflexivity|]. now apply Qabs_Qlt_condition.
  - right. apply Qnot_lt_le in Hb.
    destruct (Qltb_spec 0 d) as [Hpos|Hneg].
    + left. split; [reflexivity|].
      rewrite Qabs_pos in Hb by now apply Qlt_le_weak. exact Hb.
    + right. split; [reflexivity|]. apply Qnot_lt_le in Hneg.
      rewrite Qabs_neg in Hb by assumption. lra.
Qed.

Lemma point_side_zero (p q n : Vector2) :
  point_side_of_line p q n = 0%Z
  <-> - EPSILON < line_distance p q n < EPSILON.
Proof.
  pose proof EPSILON_pos.
  destruct (point_side_cases p q n) as [[E H1]|[[E H1]|[E H1]]];
    rewrite E; split; intros H2; try reflexivity; try discriminate;
    try assumption; lra.
Qed.

Lemma point_side_pos (p q n : Vector2) :
  point_side_of_line p q n = 1%Z <-> EPSILON <= line_distance p q n.
Proof.
  pose proof EPSILON_pos.
  destruct (point_side_cases p q n) as [[E H1]|[[E H1]|[E H1]]];
    rewrite E; split; intros H2; try reflexivity; try discriminate;
    try assumption; lra.
Qed.

Lemma point_side_neg (p q n : Vector2) :
  point_side_of_line p q n = (-1)%Z <-> line_distance p q n <= - EPSILON.
Proof.
  pose proof EPSILON_pos.
  destruct (point_side_cases p q n) as [[E H1]|[[E H1]|[E H1]]];
    rewrite E; split; intros H2; try reflexivity; try discriminate;
    try assumption; lra.
Qed.

Lemma point_side_range (p q n : Vector2) :
  point_side_of_line p q n = 0%Z \/ point_side_of_line p q n = 1%Z
  \/ point_side_of_line p q n = (-1)%Z.
Proof.
  destruct (point_side_cases p q n) as [[E _]|[[E _]|[E _]]]; auto.
Qed.

Lemma line_distance_neg (p q n : Vector2) :
  line_distance p q (Vector2_neg n) == - line_distance p q n.
Proof.
  unfold line_distance, Vector2_dot, Vector2_neg, Vector2_sub. simpl. ring.
Qed.


(** ** Vector2.normalized *)

Lemma sum_squares_nonneg (a b : Q) : 0 <= a * a + b * b.
Proof. nra. Qed.

(** The two branches of [normalized]: the square root does not raise on a sum
    of squares and the divisions are guarded. *)
Lemma normalized_branches (fsqrt : Q -> Q) (v : Vector2) :
  let length := fsqrt (x v * x v + y v * y v) in
  (length < EPSILON -> Vector2_normalized fsqrt v = Ok (mkVector2 0 0))
  /\ (EPSILON <= length ->
      ~ length == 0
      /\ Vector2_normalized fsqrt v
         = Ok (mkVector2 (x v / length) (y v / length))).
Proof.
  intros len.
  assert (Hsqrt : py_sqrt fsqrt (x v * x v + y v * y v) = Ok len).
  { unfold py_sqrt.
    destruct (Qltb_spec (x v * x v + y v * y v) 0) as [Hneg|_];
      [|reflexivity].
    exfalso. apply (Qlt_not_le _ _ Hneg), sum_squares_nonneg. }
  split.
  - intros Hlt. unfold Vector2_normalized. rewrite Hsqrt. cbn [bind].
    apply Qltb_true in Hlt. now rewrite Hlt.
  - intros Hge.
    assert (Hnz : ~ len == 0).
    { intros E. rewrite E in Hge. apply (Qle_not_lt _ _ Hge). reflexivity. }
    split; [exact Hnz|].
    unfold Vector2_normalized. rewrite Hsqrt. cbn [bind].
    apply Qltb_false in Hge. rewrite Hge.
    now rewrite !py_div_ok by assumption.
Qed.

(** C9: [normalized] never raises, whatever the square-root function; below
    [EPSILON] it returns the zero vector and otherwise the componentwise
    quotient by a length that is not zero. *)
Theorem normalized_safe (fsqrt : Q -> Q) (v : Vector2) :
  let length := fsqrt (x v * x v + y v * y v) in
  (exists r, Vector2_normalized fsqrt v = Ok r)
  /\ (length < EPSILON -> Vector2_normalized fsqrt v = Ok (mkVector2 0 0))
  /\ (EPSILON <= length ->
      ~ length == 0
      /\ Vector2_normalized fsqrt v
         = Ok (mkVector2 (x v / length) (y v / length))).
Proof.
  intros len.
  destruct (normalized_branches fsqrt v) as [Hsmall Hbig].
  fold len in Hsmall, Hbig.
  split; [|split; assumption].
  destruct (Qlt_le_dec len EPSILON) as [Hlt|Hge].
  - eexists. now apply Hsmall.
  - eexists. now apply Hbig.
Qed.

(** ** segment_line_intersection *)

Lemma clamp_refines (t : Q) : py_max 0 (py_min 1 t) == clamp t 0 1.
Proof.
  unfold py_max, py_min, clamp.
  destruct (Qltb_spec t 1) as [H1|H1].
  - destruct (Qltb_spec 0 t) as [H0|H0];
      destruct (Qltb_spec t 0) as [H0'|H0'];
      destruct (Qltb_spec 1 t) as [H1'|H1']; lra.
  - destruct (Qltb_spec 0 1) as [H0|H0]; [|lra].
    destruct (Qltb_spec t 0) as [H0'|H0'];
      destruct (Qltb_spec 1 t) as [H1'|H1']; lra.
Qed.


(** On an edge whose endpoints are classified on opposite strict sides the
    denominator is at least [2 * EPSILON] in absolute value and the parameter
    lies strictly between 0 and 1. *)
Lemma crossing_edge_param (c nx q n : Vector2) :
  (point_side_of_line c q n * point_side_of_line nx q n < 0)%Z ->
  let den := Vector2_dot (Vector2_sub nx c) n in
  let t := intersection_t c nx q n in
  EPSILON <= Qabs den /\ 0 < t < 1.
Proof.
  intros Hopp den t.
  pose proof EPSILON_pos as He.
  assert (Hden : den == line_distance nx q n - line_distance c q n).
  { unfold den, line_distance, Vector2_dot, Vector2_sub. simpl. ring. }
  assert (Hnum : Vector2_dot (Vector2_sub q c) n == - line_distance c q n).
  { unfold line_distance, Vector2_dot, Vector2_sub. simpl. ring. }
  assert (Hcases :
    (EPSILON <= line_distance c q n /\ line_distance nx q n <= - EPSILON)
    \/ (line_distance c q n <= - EPSILON /\ EPSILON <= line_distance nx q n)).
  { destruct (point_side_cases c q n) as [[E H1]|[[E H1]|[E H1]]];
    destruct (point_side_cases nx q n) as [[E' H2]|[[E' H2]|[E' H2]]];
    rewrite E, E' in Hopp; try (exfalso; lia); [left|right]; now split. }
  assert (Hnz : ~ den == 0) by (intros E; rewrite E in Hden; lra).
  assert (Ht : t * den == - line_distance c q n).
  { unfold t, intersection_t. fold den. rewrite Hnum. now field. }
  split.
  - destruct Hcases as [[H1 H2]|[H1 H2]].
    + rewrite Qabs_neg by lra. lra.
    + rewrite Qabs_pos by lra. lra.
  - destruct Hcases as [[H1 H2]|[H1 H2]]; split; nra.
Qed.

(** On such an edge the pure counterpart of the intersection is the point
    of parameter [t] (the clamp does not move it). *)
Lemma intersect_crossing (c nx q n : Vector2) :
  (point_side_of_line c q n * point_side_of_line nx q n < 0)%Z ->
  let t := intersection_t c nx q n in
  intersect c nx q n = Some (point_at c nx (py_max 0 (py_min 1 t)))
  /\ py_max 0 (py_min 1 t) == t.
Proof.
  intros Hopp t.
  destruct (crossing_edge_param c nx q n Hopp) as [Hden [Ht0 Ht1]].
  pose proof EPSILON_pos as He. fold t in Ht0, Ht1.
  split.
  - unfold intersect. fold t.
    destruct (Qltb_spec (Qabs (Vector2_dot (Vector2_sub nx c) n)) EPSILON)
      as [H|_]; [lra|].
    destruct (Qltb_spec t (- EPSILON)) as [H|_]; [lra|].
    destruct (Qltb_spec (1 + EPSILON) t) as [H|_]; [lra|].
    reflexivity.
  - apply clamp_inside. split; now apply Qlt_le_weak.
Qed.



(** ** split_polygon_by_line *)

Lemma split_fold (q n : Vector2) (es : list (Vector2 * Vector2))
      (st : SplitResult) :
  fold_left (split_step q n) es st
  = mkSplit (left st ++ flat_map (emit_left q n) es)
            (right st ++ flat_map (emit_right q n) es)
            (intersections st ++ flat_map (emit_cut q n) es).
Proof.
  revert st. induction es as [|e es IH]; intros st.
  - simpl. rewrite !app_nil_r. now destruct st.
  - cbn [fold_left flat_map]. rewrite IH. clear IH.
    unfold split_step, emit_left, emit_right, emit_cut.
    destruct (_ * _ <? 0)%Z; [destruct (intersect _ _ _ _)|];
      destruct (0 <=? _)%Z; destruct (_ <=? 0)%Z;
      cbn [left right intersections];
      rewrite <- ?app_assoc, ?app_nil_r; reflexivity.
Qed.

(** The result of [split_polygon_by_line] on a polygon, edge by edge. *)
Lemma split_polygon_by_edges (vs : list Vector2) (q n : Vector2) :
  (3 <= length vs)%nat ->
  split_polygon_by_line vs q n
  = Ok (mkSplit (flat_map (emit_left q n) (edges vs))
                (flat_map (emit_right q n) (edges vs))
                (flat_map (emit_cut q n) (edges vs))).
Proof.
  intros Hn. rewrite split_polygon_loop by assumption.
  now rewrite split_fold.
Qed.

Lemma edges_In (vs : list Vector2) (e : Vector2 * Vector2) :
  In e (edges vs) -> In (fst e) vs /\ In (snd e) vs.
Proof.
  destruct e as [a b]. unfold edges. intros H. split.
  - eapply in_combine_l. exact H.
  - apply in_combine_r in H. apply in_app_or in H. destruct H as [H|H].
    + destruct vs; [contradiction|]. now right.
    + destruct vs; [contradiction|]. simpl in H. destruct H as [<-|[]].
      now left.
Qed.

Lemma edges_start (vs : list Vector2) (v : Vector2) :
  In v vs -> exists w, In (v, w) (edges vs).
Proof.
  intros Hv. rewrite <- (edges_fst vs) in Hv.
  apply in_map_iff in Hv. destruct Hv as ([a b] & <- & Hin).
  now exists b.
Qed.

(** C8: with fewer than three vertices [polygon_area] returns exactly 0 and
    [split_polygon_by_line] returns three empty sequences; neither raises. *)
Theorem degenerate_polygon (vertices : list Vector2) (q n : Vector2) :
  (length vertices < 3)%nat ->
  polygon_area vertices = Ok 0
  /\ split_polygon_by_line vertices q n = Ok (mkSplit [] [] []).
Proof.
  intros Hlt. unfold polygon_area, split_polygon_by_line.
  apply Nat.ltb_lt in Hlt. rewrite Hlt. now split.
Qed.

Lemma degenerate_polygon_witness :
  (length [mkVector2 0 0; mkVector2 1 1] < 3)%nat
  /\ polygon_area [mkVector2 0 0; mkVector2 1 1] = Ok 0
  /\ split_polygon_by_line [mkVector2 0 0; mkVector2 1 1]
       (mkVector2 0 0) (mkVector2 1 0) = Ok (mkSplit [] [] []).
Proof.
  split; [simpl; lia|].
  apply (degenerate_polygon [mkVector2 0 0; mkVector2 1 1]
           (mkVector2 0 0) (mkVector2 1 0)).
  simpl; lia.
Defined.

(** C3: a vertex classified 0 is in both the left and the right output. *)
Theorem boundary_vertex_in_both (vertices : list Vector2) (q n v : Vector2) :
  (3 <= length vertices)%nat ->
  In v vertices ->
  point_side_of_line v q n = 0%Z ->
  exists r, split_polygon_by_line vertices q n = Ok r
            /\ In v (left r) /\ In v (right r).
Proof.
  intros Hn Hv Hside.
  rewrite split_polygon_by_edges by assumption.
  eexists. split; [reflexivity|]. cbn [left right].
  destruct (edges_start vertices v Hv) as [w Hw].
  split; apply in_flat_map; exists (v, w); (split; [exact Hw|]).
  - unfold emit_left. cbn [fst]. rewrite Hside. now left.
  - unfold emit_right. cbn [fst]. rewrite Hside. now left.
Qed.

Lemma boundary_vertex_in_both_witness :
  let vs := [mkVector2 50 0; mkVector2 100 0; mkVector2 100 100;
             mkVector2 0 100] in
  (3 <= length vs)%nat
  /\ In (mkVector2 50 0) vs
  /\ point_side_of_line (mkVector2 50 0) (mkVector2 50 0) (mkVector2 1 0)
     = 0%Z
  /\ exists r, split_polygon_by_line vs (mkVector2 50 0) (mkVector2 1 0) = Ok r
               /\ In (mkVector2 50 0) (left r)
               /\ In (mkVector2 50 0) (right r).
Proof.
  intros vs.
  split; [simpl; lia|]. split; [now left|]. split; [reflexivity|].
  apply (boundary_vertex_in_both vs (mkVector2 50 0) (mkVector2 1 0)
           (mkVector2 50 0)).
  - simpl; lia.
  - now left.
  - reflexivity.
Defined.

(** When every vertex is on the same strict side nothing is cut and every
    vertex is appended to the output of that side. *)
Lemma flat_map_emit_one_side (q n : Vector2) (s : Z)
      (es : list (Vector2 * Vector2)) :
  (s = 1 \/ s = -1)%Z ->
  (forall e, In e es ->
     point_side_of_line (fst e) q n = s /\ point_side_of_line (snd e) q n = s)
  ->
  flat_map (emit_cut q n) es = []
  /\ flat_map (emit_left q n) es = (if (0 <=? s)%Z then map fst es else [])
  /\ flat_map (emit_right q n) es = (if (s <=? 0)%Z then map fst es else []).
Proof.
  intros Hs. induction es as [|e es IH]; intros Hall.
  - simpl. destruct (0 <=? s)%Z, (s <=? 0)%Z; auto.
  - destruct IH as (IHc & IHl & IHr).
    { intros e' He'. apply Hall. now right. }
    destruct (Hall e (or_introl eq_refl)) as [H1 H2].
    assert (Hcut : emit_cut q n e = []).
    { unfold emit_cut. rewrite H1, H2.
      destruct (Z.ltb_spec (s * s) 0) as [Hlt|_]; [nia|reflexivity]. }
    cbn [flat_map map]. rewrite IHc, IHl, IHr.
    unfold emit_left, emit_right. rewrite Hcut, H1.
    destruct (0 <=? s)%Z, (s <=? 0)%Z; auto.
Qed.

(** C10: a polygon strictly on the positive side is returned whole as
    [left], with [right] and [intersections] empty; symmetrically on the
    negative side. *)
Theorem non_crossing_split (vertices : list Vector2) (q n : Vector2) :
  (3 <= length vertices)%nat ->
  ((forall v, In v vertices -> point_side_of_line v q n = 1%Z) ->
   split_polygon_by_line vertices q n = Ok (mkSplit vertices [] []))
  /\ ((forall v, In v vertices -> point_side_of_line v q n = (-1)%Z) ->
      split_polygon_by_line vertices q n = Ok (mkSplit [] vertices [])).
Proof.
  intros Hn. rewrite split_polygon_by_edges by assumption.
  split; intros Hall.
  - destruct (flat_map_emit_one_side q n 1 (edges vertices))
      as (Hc & Hl & Hr).
    + now left.
    + intros e He. apply edges_In in He. destruct He. split; now apply Hall.
    + rewrite Hc, Hl, Hr. cbn. now rewrite edges_fst.
  - destruct (flat_map_emit_one_side q n (-1) (edges vertices))
      as (Hc & Hl & Hr).
    + now right.
    + intros e He. apply edges_In in He. destruct He. split; now apply Hall.
    + rewrite Hc, Hl, Hr. cbn. now rewrite edges_fst.
Qed.

Lemma non_crossing_split_witness :
  (3 <= length square)%nat
  /\ split_polygon_by_line square (mkVector2 (-10) 0) (mkVector2 1 0)
     = Ok (mkSplit square [] [])
  /\ split_polygon_by_line square (mkVector2 200 0) (mkVector2 1 0)
     = Ok (mkSplit [] square []).
Proof.
  split; [simpl; lia|]. split.
  - apply (non_crossing_split square (mkVector2 (-10) 0) (mkVector2 1 0));
      [simpl; lia|].
    intros v [<-|[<-|[<-|[<-|[]]]]]; reflexivity.
  - apply (non_crossing_split square (mkVector2 200 0) (mkVector2 1 0));
      [simpl; lia|].
    intros v [<-|[<-|[<-|[<-|[]]]]]; reflexivity.
Defined.

(** ** Sums along paths and around polygons *)

Section Paths.

Variable w : Vector2 * Vector2 -> Q.

Lemma last_cons_nonempty (a b d : Vector2) (l : list Vector2) :
  last (a :: b :: l) d = last (b :: l) d.
Proof. reflexivity. Qed.

Lemma last_default (a d : Vector2) (l : list Vector2) :
  last (a :: l) d = last l a.
Proof.
  revert a d. induction l as [|b l IH]; intros a d; [reflexivity|].
  rewrite last_cons_nonempty, !IH. reflexivity.
Qed.

Lemma chain_app_single (a b : Vector2) (l : list Vector2) :
  chain w a (l ++ [b]) == chain w a l + w (last l a, b).
Proof.
  revert a. induction l as [|c l IH]; intros a.
  - simpl. ring.
  - cbn [app chain]. rewrite IH, last_default. ring.
Qed.

Lemma path_sum_app_single (b : Vector2) (p : list Vector2) :
  p <> [] -> path_sum w (p ++ [b]) == path_sum w p + w (last p b, b).
Proof.
  destruct p as [|a l]; [congruence|]. intros _.
  cbn [app path_sum]. rewrite chain_app_single, last_default. reflexivity.
Qed.

(** The sum over the edges of a polygon is the sum along the closed path
    that returns to the first vertex. *)
Lemma edges_chain (a b : Vector2) (l : list Vector2) :
  Qsum (map w (combine (a :: l) (l ++ [b]))) = chain w a (l ++ [b]).
Proof.
  revert a. induction l as [|c l IH]; intros a; [reflexivity|].
  cbn [app combine map Qsum fold_right chain]. f_equal. apply IH.
Qed.

Lemma edges_path_sum (vs : list Vector2) :
  Qsum (map w (edges vs)) = path_sum w (vs ++ firstn 1 vs).
Proof.
  destruct vs as [|v0 vs']; [reflexivity|].
  unfold edges. cbn [List.tl firstn app path_sum]. apply edges_chain.
Qed.

End Paths.

Lemma cross_swap (a b : Vector2) : cross (b, a) == - cross (a, b).
Proof. unfold cross. simpl. ring. Qed.

Lemma path_sum_rev (p : list Vector2) :
  path_sum cross (rev p) == - path_sum cross p.
Proof.
  induction p as [|a p IH]; [reflexivity|].
  destruct p as [|b p']; [reflexivity|].
  cbn [rev] in *. rewrite path_sum_app_single.
  2:{ intros E. apply app_eq_nil in E. destruct E; discriminate. }
  rewrite IH, last_last, cross_swap. cbn [path_sum chain]. ring.
Qed.

(** Reversing the winding negates the signed shoelace sum. *)
Lemma shoelace_rev (vs : list Vector2) : shoelace (rev vs) == - shoelace vs.
Proof.
  unfold shoelace. rewrite !edges_path_sum.
  destruct vs as [|v0 vs']; [reflexivity|].
  destruct (rev (v0 :: vs')) as [|z r] eqn:E.
  { apply (f_equal (@List.length _)) in E. rewrite length_rev in E.
    discriminate. }
  assert (Hvs : v0 :: vs' = rev r ++ [z]).
  { rewrite <- (rev_involutive (v0 :: vs')), E. reflexivity. }
  cbn [firstn].
  assert (Hrev : (z :: r) ++ [z] = rev (z :: v0 :: vs')).
  { cbn [rev]. cbn [rev] in E. now rewrite E. }
  rewrite Hrev, path_sum_rev.
  rewrite path_sum_app_single by discriminate.
  replace (last (v0 :: vs') v0) with z by (rewrite Hvs; now rewrite last_last).
  cbn [path_sum chain]. ring.
Qed.

(** ** polygon_area *)

Lemma area_loop_shoelace (es : list (Vector2 * Vector2)) (a : Q) :
  fold_left area_step es a == a + Qsum (map cross es).
Proof.
  revert a. induction es as [|e es IH]; intros a.
  - simpl. ring.
  - cbn [fold_left map]. rewrite IH.
    change (Qsum (cross e :: map cross es))
      with (cross e + Qsum (map cross es)).
    generalize (Qsum (map cross es)). intros s.
    unfold area_step, cross. ring.
Qed.

Lemma shoelace_small (vs : list Vector2) :
  (length vs < 3)%nat -> shoelace vs == 0.
Proof.
  destruct vs as [|a [|b [|c vs']]]; intros H;
    try (simpl in H; lia); unfold shoelace, cross; simpl; ring.
Qed.

(** [polygon_area] is half the absolute value of the shoelace sum and never
    raises. *)
Lemma polygon_area_shoelace (vs : list Vector2) :
  exists a, polygon_area vs = Ok a /\ a == Qabs (shoelace vs) / 2.
Proof.
  destruct (Nat.lt_ge_cases (length vs) 3) as [Hlt|Hge].
  - exists 0. split.
    + unfold polygon_area. apply Nat.ltb_lt in Hlt. now rewrite Hlt.
    + rewrite shoelace_small by assumption. reflexivity.
  - eexists. split; [now apply polygon_area_loop|].
    rewrite area_loop_shoelace. fold (shoelace vs).
    now rewrite Qplus_0_l.
Qed.


(** ** polygon_centroid *)

Lemma centroid_loop_sums (es : list (Vector2 * Vector2)) (st : Vector2 * Q) :
  x (fst (fold_left centroid_step es st))
    == x (fst st) + x (Vsum (map weighted_term es))
  /\ y (fst (fold_left centroid_step es st))
       == y (fst st) + y (Vsum (map weighted_term es))
  /\ snd (fold_left centroid_step es st) == snd st + Qsum (map cross es).
Proof.
  revert st. induction es as [|e es IH]; intros st.
  - simpl. repeat split; ring.
  - cbn [fold_left map]. destruct (IH (centroid_step st e)) as (Hx & Hy & Ha).
    rewrite Hx, Hy, Ha. clear IH Hx Hy Ha.
    change (Vsum (weighted_term e :: map weighted_term es))
      with (Vector2_add (weighted_term e) (Vsum (map weighted_term es))).
    change (Qsum (cross e :: map cross es))
      with (cross e + Qsum (map cross es)).
    unfold centroid_step, weighted_term. cbn [fst snd x y Vector2_add].
    repeat split; ring.
Qed.

Lemma vertex_loop_sum (vs : list Vector2) (c : Vector2) :
  veq (fold_left Vector2_add vs c) (Vector2_add c (Vsum vs)).
Proof.
  revert c. induction vs as [|v vs IH]; intros c.
  - split; simpl; ring.
  - cbn [fold_left]. destruct (IH (Vector2_add c v)) as [Hx Hy].
    split; [rewrite Hx|rewrite Hy]; simpl; ring.
Qed.

Lemma inject_nat_nonzero (k : nat) :
  (0 < k)%nat -> ~ inject_Z (Z.of_nat k) == 0.
Proof.
  intros Hk E. unfold Qeq in E. simpl in E. lia.
Qed.

(** The body of [polygon_centroid] for three vertices or more, with its
    loops replaced by the folds they compute. *)
Lemma polygon_centroid_loop (vs : list Vector2) :
  (3 <= length vs)%nat ->
  polygon_centroid vs
  = let st := fold_left centroid_step (edges vs) (mkVector2 0 0, 0) in
    let area := snd st * (1 # 2) in
    if Qltb (Qabs area) EPSILON then
      k <- py_div 1 (inject_Z (Z.of_nat (length vs))) ;;
      Ok (Vector2_mul (fold_left Vector2_add vs (mkVector2 0 0)) k)
    else
      k <- py_div 1 (6 * area) ;;
      Ok (Vector2_mul (fst st) k).
Proof.
  intros Hn. unfold polygon_centroid.
  destruct (length vs) as [|[|[|k]]] eqn:E; try lia.
  rewrite <- E. rewrite centroid_loop by lia. cbn [bind].
  destruct (fold_left centroid_step (edges vs) (mkVector2 0 0, 0))
    as [c a]. cbn [fst snd].
  destruct (Qltb (Qabs (a * (1 # 2))) EPSILON); [|reflexivity].
  rewrite (for_each_ok vs _ Vector2_add) by reflexivity.
  reflexivity.
Qed.


(** ** Clipping a path that never jumps across the line *)

Section Clip.

Variable h : Vector2 -> Q.
Variable w : Vector2 * Vector2 -> Q.

(** Steps between two points of height 0 have weight 0. *)
Hypothesis w_level : forall a b, h a == 0 -> h b == 0 -> w (a, b) == 0.

Lemma keep_of_pos (p : Vector2) :
  0 < h p -> keep_nonneg h p = true /\ keep_nonpos h p = false.
Proof.
  intros Hp. unfold keep_nonneg, keep_nonpos. split.
  - apply Qle_bool_iff. now apply Qlt_le_weak.
  - apply Bool.not_true_iff_false. rewrite Qle_bool_iff.
    now apply Qlt_not_le.
Qed.

Lemma keep_of_neg (p : Vector2) :
  h p < 0 -> keep_nonneg h p = false /\ keep_nonpos h p = true.
Proof.
  intros Hp. unfold keep_nonneg, keep_nonpos. split.
  - apply Bool.not_true_iff_false. rewrite Qle_bool_iff.
    now apply Qlt_not_le.
  - apply Qle_bool_iff. now apply Qlt_le_weak.
Qed.

Lemma keep_of_zero (p : Vector2) :
  h p == 0 -> keep_nonneg h p = true /\ keep_nonpos h p = true.
Proof.
  intros Hp. unfold keep_nonneg, keep_nonpos.
  split; apply Qle_bool_iff; rewrite Hp; apply Qle_refl.
Qed.

Lemma path_sum_cons (a : Vector2) (X : list Vector2) :
  path_sum w (a :: X) == link w a X + path_sum w X.
Proof.
  destruct X as [|z X]; cbn [path_sum chain link]; ring.
Qed.

(** After a point strictly above the line, the first point kept on the
    non-positive side is on the line; and symmetrically. *)
Lemma first_kept_nonpos (b : Vector2) (l : list Vector2) :
  smooth h b l -> 0 < h b ->
  forall z X, filter (keep_nonpos h) l = z :: X -> h z == 0.
Proof.
  revert b. induction l as [|c l IH]; intros b Hs Hb z X E;
    [discriminate|].
  destruct Hs as [[Hj _] Hs]. cbn [filter] in E.
  destruct (Q_dec (h c) 0) as [[Hc|Hc]|Hc].
  - exfalso. apply Hj. now split.
  - destruct (keep_of_pos c Hc) as [_ Hk]. rewrite Hk in E.
    now apply (IH c Hs Hc z X).
  - destruct (keep_of_zero c Hc) as [_ Hk]. rewrite Hk in E.
    injection E as <- _. exact Hc.
Qed.

Lemma first_kept_nonneg (b : Vector2) (l : list Vector2) :
  smooth h b l -> h b < 0 ->
  forall z X, filter (keep_nonneg h) l = z :: X -> h z == 0.
Proof.
  revert b. induction l as [|c l IH]; intros b Hs Hb z X E;
    [discriminate|].
  destruct Hs as [[_ Hj] Hs]. cbn [filter] in E.
  destruct (Q_dec (h c) 0) as [[Hc|Hc]|Hc].
  - destruct (keep_of_neg c Hc) as [Hk _]. rewrite Hk in E.
    now apply (IH c Hs Hc z X).
  - exfalso. apply Hj. now split.
  - destruct (keep_of_zero c Hc) as [Hk _]. rewrite Hk in E.
    injection E as <- _. exact Hc.
Qed.

Lemma link_level (a : Vector2) (X : list Vector2) :
  h a == 0 -> (forall z X', X = z :: X' -> h z == 0) -> link w a X == 0.
Proof.
  intros Ha HX. destruct X as [|z X']; [reflexivity|].
  cbn [link]. apply w_level; [exact Ha|]. now apply (HX z X').
Qed.

(** The two clipped paths together weigh as much as the path. *)
Lemma clip_path (a : Vector2) (l : list Vector2) :
  smooth h a l ->
  path_sum w (filter (keep_nonneg h) (a :: l))
  + path_sum w (filter (keep_nonpos h) (a :: l))
  == chain w a l.
Proof.
  revert a. induction l as [|b l IH]; intros a Hs.
  - cbn [filter].
    destruct (keep_nonneg h a), (keep_nonpos h a); cbn; ring.
  - pose proof Hs as [Hj Hs']. specialize (IH b Hs').
    cbn [chain]. rewrite <- IH. clear IH.
    set (FL := filter (keep_nonneg h) (b :: l)).
    set (FR := filter (keep_nonpos h) (b :: l)).
    change (filter (keep_nonneg h) (a :: b :: l))
      with (if keep_nonneg h a then a :: FL else FL).
    change (filter (keep_nonpos h) (a :: b :: l))
      with (if keep_nonpos h a then a :: FR else FR).
    destruct (Q_dec (h a) 0) as [[Ha|Ha]|Ha].
    + (* a strictly below: b is not strictly above *)
      destruct (keep_of_neg a Ha) as [-> ->].
      rewrite path_sum_cons.
      assert (Hb : keep_nonpos h b = true).
      { destruct (Q_dec (h b) 0) as [[Hb|Hb]|Hb].
        - now apply keep_of_neg.
        - exfalso. destruct Hj as [_ Hj]. apply Hj. now split.
        - now apply keep_of_zero. }
      unfold FR at 1. cbn [filter]. rewrite Hb. cbn [link]. ring.
    + (* a strictly above: b is not strictly below *)
      destruct (keep_of_pos a Ha) as [-> ->].
      rewrite path_sum_cons.
      assert (Hb : keep_nonneg h b = true).
      { destruct (Q_dec (h b) 0) as [[Hb|Hb]|Hb].
        - exfalso. destruct Hj as [Hj _]. apply Hj. now split.
        - now apply keep_of_pos.
        - now apply keep_of_zero. }
      unfold FL at 1. cbn [filter]. rewrite Hb. cbn [link]. ring.
    + (* a on the line *)
      destruct (keep_of_zero a Ha) as [-> ->].
      rewrite !path_sum_cons.
      assert (Hlinks : link w a FL + link w a FR == w (a, b)).
      { destruct (Q_dec (h b) 0) as [[Hb|Hb]|Hb].
        - destruct (keep_of_neg b Hb) as [HkL HkR].
          rewrite (link_level a FL Ha).
          2:{ unfold FL. cbn [filter]. rewrite HkL.
              now apply (first_kept_nonneg b l). }
          unfold FR. cbn [filter]. rewrite HkR. cbn [link]. ring.
        - destruct (keep_of_pos b Hb) as [HkL HkR].
          rewrite (link_level a FR Ha).
          2:{ unfold FR. cbn [filter]. rewrite HkR.
              now apply (first_kept_nonpos b l). }
          unfold FL. cbn [filter]. rewrite HkL. cbn [link]. ring.
        - destruct (keep_of_zero b Hb) as [HkL HkR].
          unfold FL, FR. cbn [filter]. rewrite HkL, HkR. cbn [link].
          rewrite (w_level a b Ha Hb). ring. }
      rewrite <- Hlinks. ring.
Qed.

Lemma smooth_app_l (a : Vector2) (l l' : list Vector2) :
  smooth h a (l ++ l') -> smooth h a l.
Proof.
  revert a. induction l as [|b l IH]; intros a Hs; [exact I|].
  destruct Hs as [Hj Hs]. split; [exact Hj|]. now apply IH.
Qed.

Lemma last_app_nonempty (X Y : list Vector2) (d : Vector2) :
  Y <> [] -> last (X ++ Y) d = last Y d.
Proof.
  intros HY. induction X as [|c X IH]; [reflexivity|].
  cbn [app]. destruct (X ++ Y) as [|c' Z] eqn:E.
  - apply app_eq_nil in E. destruct E as [_ E]. contradiction.
  - rewrite <- IH. reflexivity.
Qed.

(** Before a point strictly below the line, the last point kept on the
    non-negative side is on the line; and symmetrically. *)
Lemma last_kept_nonneg (a e : Vector2) (l : list Vector2) :
  smooth h a (l ++ [e]) -> h e < 0 ->
  forall d, filter (keep_nonneg h) (a :: l) <> [] ->
            h (last (filter (keep_nonneg h) (a :: l)) d) == 0.
Proof.
  revert a. induction l as [|c l IH]; intros a Hs He d Hne.
  - destruct Hs as [[Hj _] _]. cbn [filter] in *.
    destruct (keep_nonneg h a) eqn:Hk; [|contradiction].
    cbn [last]. apply Qle_bool_iff in Hk.
    apply Qle_antisym; [|exact Hk].
    apply Qnot_lt_le. intros Ha. apply Hj. now split.
  - destruct Hs as [[Hj _] Hs].
    assert (Hsplit : filter (keep_nonneg h) (a :: c :: l)
                     = (if keep_nonneg h a then [a] else [])
                       ++ filter (keep_nonneg h) (c :: l)).
    { change (filter (keep_nonneg h) (a :: c :: l))
        with (if keep_nonneg h a then a :: filter (keep_nonneg h) (c :: l)
              else filter (keep_nonneg h) (c :: l)).
      now destruct (keep_nonneg h a). }
    rewrite Hsplit in *. clear Hsplit.
    destruct (filter (keep_nonneg h) (c :: l)) as [|z Z] eqn:E.
    + rewrite app_nil_r in *.
      destruct (keep_nonneg h a) eqn:Hk; [|contradiction].
      cbn [last]. apply Qle_bool_iff in Hk.
      assert (Hc : h c < 0).
      { cbn [filter] in E. destruct (keep_nonneg h c) eqn:Hkc;
          [discriminate|].
        apply Qnot_le_lt. intros H0. apply Qle_bool_iff in H0.
        unfold keep_nonneg in Hkc. congruence. }
      apply Qle_antisym; [|exact Hk].
      apply Qnot_lt_le. intros Ha. apply Hj. now split.
    + rewrite last_app_nonempty by discriminate.
      rewrite <- E. apply IH; [exact Hs|exact He|].
      rewrite E. discriminate.
Qed.

Lemma last_kept_nonpos (a e : Vector2) (l : list Vector2) :
  smooth h a (l ++ [e]) -> 0 < h e ->
  forall d, filter (keep_nonpos h) (a :: l) <> [] ->
            h (last (filter (keep_nonpos h) (a :: l)) d) == 0.
Proof.
  revert a. induction l as [|c l IH]; intros a Hs He d Hne.
  - destruct Hs as [[_ Hj] _]. cbn [filter] in *.
    destruct (keep_nonpos h a) eqn:Hk; [|contradiction].
    cbn [last]. apply Qle_bool_iff in Hk.
    apply Qle_antisym; [exact Hk|].
    apply Qnot_lt_le. intros Ha. apply Hj. now split.
  - destruct Hs as [[_ Hj] Hs].
    assert (Hsplit : filter (keep_nonpos h) (a :: c :: l)
                     = (if keep_nonpos h a then [a] else [])
                       ++ filter (keep_nonpos h) (c :: l)).
    { change (filter (keep_nonpos h) (a :: c :: l))
        with (if keep_nonpos h a then a :: filter (keep_nonpos h) (c :: l)
              else filter (keep_nonpos h) (c :: l)).
      now destruct (keep_nonpos h a). }
    rewrite Hsplit in *. clear Hsplit.
    destruct (filter (keep_nonpos h) (c :: l)) as [|z Z] eqn:E.
    + rewrite app_nil_r in *.
      destruct (keep_nonpos h a) eqn:Hk; [|contradiction].
      cbn [last]. apply Qle_bool_iff in Hk.
      assert (Hc : 0 < h c).
      { cbn [filter] in E. destruct (keep_nonpos h c) eqn:Hkc;
          [discriminate|].
        apply Qnot_le_lt. intros H0. apply Qle_bool_iff in H0.
        unfold keep_nonpos in Hkc. congruence. }
      apply Qle_antisym; [exact Hk|].
      apply Qnot_lt_le. intros Ha. apply Hj. now split.
    + rewrite last_app_nonempty by discriminate.
      rewrite <- E. apply IH; [exact Hs|exact He|].
      rewrite E. discriminate.
Qed.

(** Closing a clipped path: the kept points of the closed path
    [v0 :: rest ++ [v0]] weigh as much as the closed polygon of the kept
    vertices. *)
Lemma close_nonneg (v0 : Vector2) (rest : list Vector2) :
  smooth h v0 (rest ++ [v0]) ->
  path_sum w (filter (keep_nonneg h) (v0 :: rest ++ [v0]))
  == Qsum (map w (edges (filter (keep_nonneg h) (v0 :: rest)))).
Proof.
  intros Hs. rewrite edges_path_sum.
  change (v0 :: rest ++ [v0]) with ((v0 :: rest) ++ [v0]).
  rewrite filter_app. cbn [filter].
  destruct (keep_nonneg h v0) eqn:Hk; [reflexivity|].
  rewrite app_nil_r.
  destruct (filter (keep_nonneg h) rest) as [|z L] eqn:E; [reflexivity|].
  cbn [firstn]. rewrite path_sum_app_single by discriminate.
  assert (Hv0 : h v0 < 0).
  { apply Qnot_le_lt. intros H0. apply Qle_bool_iff in H0.
    unfold keep_nonneg in Hk. congruence. }
  rewrite w_level; [ring| |].
  - destruct rest as [|a l]; [discriminate|].
    destruct Hs as [_ Hs]. rewrite <- E.
    apply (last_kept_nonneg a v0 l Hs Hv0).
    rewrite E. discriminate.
  - apply (first_kept_nonneg v0 rest (smooth_app_l _ _ _ Hs) Hv0 z L E).
Qed.

Lemma close_nonpos (v0 : Vector2) (rest : list Vector2) :
  smooth h v0 (rest ++ [v0]) ->
  path_sum w (filter (keep_nonpos h) (v0 :: rest ++ [v0]))
  == Qsum (map w (edges (filter (keep_nonpos h) (v0 :: rest)))).
Proof.
  intros Hs. rewrite edges_path_sum.
  change (v0 :: rest ++ [v0]) with ((v0 :: rest) ++ [v0]).
  rewrite filter_app. cbn [filter].
  destruct (keep_nonpos h v0) eqn:Hk; [reflexivity|].
  rewrite app_nil_r.
  destruct (filter (keep_nonpos h) rest) as [|z L] eqn:E; [reflexivity|].
  cbn [firstn]. rewrite path_sum_app_single by discriminate.
  assert (Hv0 : 0 < h v0).
  { apply Qnot_le_lt. intros H0. apply Qle_bool_iff in H0.
    unfold keep_nonpos in Hk. congruence. }
  rewrite w_level; [ring| |].
  - destruct rest as [|a l]; [discriminate|].
    destruct Hs as [_ Hs]. rewrite <- E.
    apply (last_kept_nonpos a v0 l Hs Hv0).
    rewrite E. discriminate.
  - apply (first_kept_nonpos v0 rest (smooth_app_l _ _ _ Hs) Hv0 z L E).
Qed.

(** The two clipped polygons together weigh as much as the polygon. *)
Lemma clip_polygon (v0 : Vector2) (rest : list Vector2) :
  smooth h v0 (rest ++ [v0]) ->
  Qsum (map w (edges (filter (keep_nonneg h) (v0 :: rest))))
  + Qsum (map w (edges (filter (keep_nonpos h) (v0 :: rest))))
  == Qsum (map w (edges (v0 :: rest))).
Proof.
  intros Hs.
  rewrite <- close_nonneg, <- close_nonpos by assumption.
  rewrite (clip_path v0 (rest ++ [v0]) Hs).
  rewrite edges_path_sum. reflexivity.
Qed.

End Clip.

(** ** Signed area is conserved by a split *)

(** The shoelace sum of a closed polygon does not depend on the origin. *)
Lemma chain_cross_from (o a : Vector2) (l : list Vector2) :
  chain (cross_from o) a l
  == chain cross a l + cross (o, a) - cross (o, last l a).
Proof.
  revert a. induction l as [|b l IH]; intros a.
  - cbn [chain last]. ring.
  - cbn [chain]. rewrite IH, last_default.
    unfold cross_from, cross, Vector2_sub. cbn [fst snd x y]. ring.
Qed.

Lemma shoelace_cross_from (o : Vector2) (vs : list Vector2) :
  Qsum (map (cross_from o) (edges vs)) == shoelace vs.
Proof.
  unfold shoelace. rewrite !edges_path_sum.
  destruct vs as [|v0 vs']; [reflexivity|].
  cbn [firstn app path_sum]. rewrite chain_cross_from, last_last. ring.
Qed.

(** A point of the edge splits its cross term in two, whatever the
    parameter. *)
Lemma cross_from_split (o a b : Vector2) (t : Q) :
  cross_from o (a, point_at a b t) + cross_from o (point_at a b t, b)
  == cross_from o (a, b).
Proof.
  unfold cross_from, cross, point_at, Vector2_sub. cbn [fst snd x y]. ring.
Qed.

Lemma line_distance_point_at (a b q n : Vector2) (t : Q) :
  line_distance (point_at a b t) q n
  == line_distance a q n + t * Vector2_dot (Vector2_sub b a) n.
Proof.
  unfold line_distance, point_at, Vector2_dot, Vector2_sub.
  cbn [x y]. ring.
Qed.

Section Split.

Variables q n : Vector2.

Local Abbreviation h := (fun p : Vector2 => line_distance p q n).

(** The normal is not the zero vector. *)
Hypothesis normal_nonzero : ~ (x n == 0 /\ y n == 0).

(** Two points on the line give a zero cross term seen from [q]. *)
Lemma cross_from_level (a b : Vector2) :
  line_distance a q n == 0 -> line_distance b q n == 0 ->
  cross_from q (a, b) == 0.
Proof.
  intros Ha Hb.
  assert (Hx : x n * cross_from q (a, b)
               == line_distance a q n * (y b - y q)
                  - line_distance b q n * (y a - y q)).
  { unfold cross_from, cross, line_distance, Vector2_dot, Vector2_sub.
    cbn [fst snd x y]. ring. }
  assert (Hy : y n * cross_from q (a, b)
               == (x a - x q) * line_distance b q n
                  - (x b - x q) * line_distance a q n).
  { unfold cross_from, cross, line_distance, Vector2_dot, Vector2_sub.
    cbn [fst snd x y]. ring. }
  rewrite Ha, Hb in Hx, Hy.
  assert (Hx0 : x n * cross_from q (a, b) == 0) by (rewrite Hx; ring).
  assert (Hy0 : y n * cross_from q (a, b) == 0) by (rewrite Hy; ring).
  apply Qmult_integral in Hx0. apply Qmult_integral in Hy0.
  destruct Hx0 as [Hx0|Hx0]; [|exact Hx0].
  destruct Hy0 as [Hy0|Hy0]; [|exact Hy0].
  exfalso. apply normal_nonzero. now split.
Qed.

(** The point inserted on a crossing edge is exactly on the line. *)
Lemma emit_cut_cases (c nx : Vector2) :
  (emit_cut q n (c, nx) = []
   /\ (0 <= point_side_of_line c q n * point_side_of_line nx q n)%Z)
  \/ (exists t, emit_cut q n (c, nx) = [point_at c nx t]
                /\ line_distance (point_at c nx t) q n == 0).
Proof.
  unfold emit_cut. cbn [fst snd].
  destruct (Z.ltb_spec (point_side_of_line c q n
                        * point_side_of_line nx q n) 0) as [Hopp|Hsame].
  2:{ left. now split. }
  right.
  destruct (crossing_edge_param c nx q n Hopp) as [Hden _].
  destruct (intersect_crossing c nx q n Hopp) as [-> Hclamp].
  eexists. split; [reflexivity|].
  rewrite line_distance_point_at, Hclamp.
  set (den := Vector2_dot (Vector2_sub nx c) n) in *.
  assert (Hnz : ~ den == 0) by now apply Qabs_ge_nonzero.
  assert (Hnum : Vector2_dot (Vector2_sub q c) n == - line_distance c q n).
  { unfold line_distance, Vector2_dot, Vector2_sub. cbn [x y]. ring. }
  unfold intersection_t. fold den. rewrite Hnum. now field.
Qed.

Lemma side_keep (p : Vector2) :
  exact_boundary q n p ->
  (0 <=? point_side_of_line p q n)%Z = keep_nonneg h p
  /\ (point_side_of_line p q n <=? 0)%Z = keep_nonpos h p.
Proof.
  intros Hex. pose proof EPSILON_pos as He. unfold exact_boundary in Hex.
  destruct (point_side_cases p q n) as [[E H1]|[[E H1]|[E H1]]];
    rewrite E in *.
  - destruct (keep_of_zero h p (Hex eq_refl)) as [-> ->]. now split.
  - destruct (keep_of_pos h p) as [-> ->]; [cbv beta; lra|]. now split.
  - destruct (keep_of_neg h p) as [-> ->]; [cbv beta; lra|]. now split.
Qed.

Lemma no_jump_level_l (a b : Vector2) :
  line_distance a q n == 0 -> no_jump h a b.
Proof. intros Ha. split; intros [H1 H2]; cbv beta in *; lra. Qed.

Lemma no_jump_level_r (a b : Vector2) :
  line_distance b q n == 0 -> no_jump h a b.
Proof. intros Hb. split; intros [H1 H2]; cbv beta in *; lra. Qed.

Lemma no_jump_same_side (a b : Vector2) :
  exact_boundary q n a -> exact_boundary q n b ->
  (0 <= point_side_of_line a q n * point_side_of_line b q n)%Z ->
  no_jump h a b.
Proof.
  intros Ha Hb Hprod. pose proof EPSILON_pos as He.
  unfold exact_boundary in *.
  destruct (point_side_cases a q n) as [[E H1]|[[E H1]|[E H1]]];
  destruct (point_side_cases b q n) as [[E' H2]|[[E' H2]|[E' H2]]];
  rewrite E, E' in *; try (exfalso; lia);
  try specialize (Ha eq_refl); try specialize (Hb eq_refl);
  split; intros [H3 H4]; cbv beta in *; lra.
Qed.

(** Going along one edge of the polygon with its crossing point inserted:
    no jump across the line, same cross terms, and the outputs of the
    split are the points kept on each side. *)
Lemma edge_step (a c : Vector2) (X : list Vector2) :
  exact_boundary q n a -> exact_boundary q n c ->
  smooth h c X ->
  smooth h a (emit_cut q n (a, c) ++ c :: X)
  /\ chain (cross_from q) a (emit_cut q n (a, c) ++ c :: X)
     == cross_from q (a, c) + chain (cross_from q) c X.
Proof.
  intros Ha Hc HX.
  destruct (emit_cut_cases a c) as [[-> Hprod]|(t & -> & Ht)].
  - cbn [app smooth chain]. split; [|reflexivity].
    split; [|exact HX]. now apply no_jump_same_side.
  - cbn [app smooth chain]. split.
    + split; [now apply no_jump_level_r|].
      split; [now apply no_jump_level_l|exact HX].
    + rewrite <- (cross_from_split q a c t). ring.
Qed.

Lemma emit_keep (e : Vector2 * Vector2) :
  exact_boundary q n (fst e) ->
  emit_left q n e = filter (keep_nonneg h) (emit_all q n e)
  /\ emit_right q n e = filter (keep_nonpos h) (emit_all q n e).
Proof.
  intros Hex. destruct e as [a c]. cbn [fst] in Hex.
  unfold emit_left, emit_right, emit_all. cbn [fst filter].
  destruct (side_keep a Hex) as [-> ->].
  destruct (emit_cut_cases a c) as [[-> _]|(t & -> & Ht)].
  - destruct (keep_nonneg h a), (keep_nonpos h a); now split.
  - cbn [filter].
    destruct (keep_of_zero h (point_at a c t) Ht) as [-> ->].
    destruct (keep_nonneg h a), (keep_nonpos h a); now split.
Qed.

Lemma flat_map_emit_keep (es : list (Vector2 * Vector2)) :
  (forall e, In e es -> exact_boundary q n (fst e)) ->
  flat_map (emit_left q n) es
  = filter (keep_nonneg h) (flat_map (emit_all q n) es)
  /\ flat_map (emit_right q n) es
     = filter (keep_nonpos h) (flat_map (emit_all q n) es).
Proof.
  induction es as [|e es IH]; intros Hex; [now split|].
  destruct IH as [IHl IHr]; [intros e' He'; apply Hex; now right|].
  destruct (emit_keep e (Hex e (or_introl eq_refl))) as [El Er].
  cbn [flat_map]. rewrite !filter_app, IHl, IHr, El, Er. now split.
Qed.

(** The polygon with its crossing points inserted, as a closed path. *)
Lemma refined_polygon (a b : Vector2) (l : list Vector2) :
  (forall p, In p (a :: l ++ [b]) -> exact_boundary q n p) ->
  exists rest,
    flat_map (emit_all q n) (combine (a :: l) (l ++ [b])) = a :: rest
    /\ smooth h a (rest ++ [b])
    /\ chain (cross_from q) a (rest ++ [b])
       == chain (cross_from q) a (l ++ [b]).
Proof.
  revert a. induction l as [|c l IH]; intros a Hex.
  - exists (emit_cut q n (a, b)). cbn [app combine flat_map emit_all fst].
    rewrite app_nil_r. split; [reflexivity|].
    destruct (edge_step a b []) as [Hs Hc].
    + apply Hex. now left.
    + apply Hex. right. now left.
    + exact I.
    + split; [exact Hs|]. rewrite Hc. cbn [chain]. ring.
  - destruct (IH c) as (rest & E & Hs & Hc).
    { intros p Hp. apply Hex. now right. }
    exists (emit_cut q n (a, c) ++ c :: rest).
    change (combine (a :: c :: l) ((c :: l) ++ [b]))
      with ((a, c) :: combine (c :: l) (l ++ [b])).
    cbn [app flat_map]. rewrite E.
    unfold emit_all at 1. cbn [fst app]. split; [reflexivity|].
    rewrite <- app_assoc. cbn [app].
    destruct (edge_step a c (rest ++ [b])) as [Hs' Hc'].
    + apply Hex. now left.
    + apply Hex. right. now left.
    + exact Hs.
    + split; [exact Hs'|]. rewrite Hc', Hc. cbn [chain]. ring.
Qed.

(** The signed shoelace sums of the two outputs add up to the signed
    shoelace sum of the polygon. *)
Lemma split_conserves_shoelace (vs : list Vector2) :
  (forall p, In p vs -> exact_boundary q n p) ->
  shoelace (flat_map (emit_left q n) (edges vs))
  + shoelace (flat_map (emit_right q n) (edges vs))
  == shoelace vs.
Proof.
  intros Hex. destruct vs as [|v0 vs']; [reflexivity|].
  destruct (flat_map_emit_keep (edges (v0 :: vs'))) as [-> ->].
  { intros e He. apply Hex. now apply edges_In in He. }
  destruct (refined_polygon v0 v0 vs') as (rest & E & Hs & Hc).
  { intros p Hp. apply Hex. destruct Hp as [<-|Hp]; [now left|].
    apply in_app_or in Hp. destruct Hp as [Hp|[<-|[]]];
      [now right|now left]. }
  unfold edges at 1 2. cbn [List.tl firstn]. rewrite E.
  rewrite <- (shoelace_cross_from q (filter _ _)).
  rewrite <- (shoelace_cross_from q (filter (keep_nonpos h) _)).
  rewrite (clip_polygon h (cross_from q) cross_from_level v0 rest Hs).
  rewrite <- (shoelace_cross_from q (v0 :: vs')).
  rewrite !edges_path_sum. cbn [firstn app path_sum].
  exact Hc.
Qed.

End Split.

(** ** Area conservation *)

Lemma area_conservation_diff_eq (vs : list Vector2) (q n : Vector2)
      (r : SplitResult) (a al ar : Q) :
  polygon_area vs = Ok a ->
  split_polygon_by_line vs q n = Ok r ->
  polygon_area (left r) = Ok al ->
  polygon_area (right r) = Ok ar ->
  area_conservation_diff vs q n = Ok (Qabs (al + ar - a)).
Proof.
  intros Ha Hr Hal Har. unfold area_conservation_diff.
  rewrite Ha. cbn [bind]. rewrite Hr. cbn [bind].
  rewrite Hal. cbn [bind]. now rewrite Har.
Qed.

Lemma Qabs_add_same_sign (a b : Q) :
  0 <= a * b -> Qabs a + Qabs b == Qabs (a + b).
Proof.
  intros Hab.
  destruct (Qlt_le_dec a 0) as [Ha|Ha]; destruct (Qlt_le_dec b 0) as [Hb|Hb].
  - rewrite !Qabs_neg by lra. ring.
  - assert (Hb0 : b == 0) by nra.
    rewrite Hb0, Qplus_0_r. change (Qabs 0) with 0. ring.
  - assert (Ha0 : a == 0) by nra.
    rewrite Ha0, Qplus_0_l. change (Qabs 0) with 0. ring.
  - rewrite !Qabs_pos by lra. ring.
Qed.

(** The diagonal split of the square by a normal [(k, k)] with
    [1/2 <= k <= 1], such as the normalized [(1, 1)]. *)
Lemma square_diagonal_split (k : Q) :
  1 # 2 <= k <= 1 ->
  split_polygon_by_line square (mkVector2 50 50) (mkVector2 k k)
  = Ok (mkSplit [mkVector2 100 0; mkVector2 100 100; mkVector2 0 100]
                [mkVector2 0 0; mkVector2 100 0; mkVector2 0 100]
                []).
Proof.
  intros Hk. pose proof EPSILON_pos as He.
  assert (He' : EPSILON <= 1) by (unfold EPSILON; lra).
  set (q := mkVector2 50 50). set (n := mkVector2 k k).
  assert (H0 : point_side_of_line (mkVector2 0 0) q n = (-1)%Z).
  { apply point_side_neg.
    unfold line_distance, Vector2_dot, Vector2_sub, q, n. cbn [x y]. lra. }
  assert (H1 : point_side_of_line (mkVector2 100 0) q n = 0%Z).
  { apply point_side_zero.
    unfold line_distance, Vector2_dot, Vector2_sub, q, n. cbn [x y]. lra. }
  assert (H2 : point_side_of_line (mkVector2 100 100) q n = 1%Z).
  { apply point_side_pos.
    unfold line_distance, Vector2_dot, Vector2_sub, q, n. cbn [x y]. lra. }
  assert (H3 : point_side_of_line (mkVector2 0 100) q n = 0%Z).
  { apply point_side_zero.
    unfold line_distance, Vector2_dot, Vector2_sub, q, n. cbn [x y]. lra. }
  rewrite split_polygon_by_edges by (simpl; lia).
  unfold square, edges. cbn [List.tl firstn app combine flat_map].
  unfold emit_left, emit_right, emit_cut. cbn [fst snd].
  rewrite H0, H1, H2, H3. reflexivity.
Qed.




(** * Further properties of the geometry functions *)

(** ** Vector2.distance_to and Vector2.normalized *)

(** X1 ([Vector2.distance_to]):
    [distance_to] never raises (the argument of the square root is a sum of
    squares) and is symmetric, for a square root that respects equality of
    rationals. *)
Theorem distance_to_symmetric (fsqrt : Q -> Q) (a b : Vector2) :
  (forall u v, u == v -> fsqrt u == fsqrt v) ->
  exists d d',
    Vector2_distance_to fsqrt a b = Ok d
    /\ Vector2_distance_to fsqrt b a = Ok d'
    /\ d == d'.
Proof.
  intros Hproper. unfold Vector2_distance_to, py_sqrt. cbv zeta.
  destruct (Qltb_spec ((x a - x b) * (x a - x b)
                       + (y a - y b) * (y a - y b)) 0) as [H|_].
  { exfalso. apply (Qlt_not_le _ _ H), sum_squares_nonneg. }
  destruct (Qltb_spec ((x b - x a) * (x b - x a)
                       + (y b - y a) * (y b - y a)) 0) as [H|_].
  { exfalso. apply (Qlt_not_le _ _ H), sum_squares_nonneg. }
  eexists. eexists. split; [reflexivity|]. split; [reflexivity|].
  apply Hproper. ring.
Qed.

Lemma distance_to_symmetric_witness :
  (forall u v, u == v -> (fun a : Q => a) u == (fun a : Q => a) v)
  /\ exists d d',
       Vector2_distance_to (fun a => a) (mkVector2 0 0) (mkVector2 3 4) = Ok d
       /\ Vector2_distance_to (fun a => a) (mkVector2 3 4) (mkVector2 0 0)
          = Ok d'
       /\ d == d'.
Proof.
  split; [intros u v H; exact H|].
  apply (distance_to_symmetric (fun a => a) (mkVector2 0 0) (mkVector2 3 4)).
  intros u v H. exact H.
Defined.



(** ** point_side_of_line *)

(** The classification only depends on the signed distance. *)
Lemma point_side_ext (p q n p' q' n' : Vector2) :
  line_distance p q n == line_distance p' q' n' ->
  point_side_of_line p q n = point_side_of_line p' q' n'.
Proof.
  intros E. pose proof EPSILON_pos as He.
  destruct (point_side_cases p q n) as [[-> H1]|[[-> H1]|[-> H1]]];
  destruct (point_side_cases p' q' n') as [[-> H2]|[[-> H2]|[-> H2]]];
  try reflexivity; exfalso; lra.
Qed.




(** ** segment_line_intersection *)

Lemma intersect_some (a b q n p : Vector2) :
  intersect a b q n = Some p ->
  EPSILON <= Qabs (Vector2_dot (Vector2_sub b a) n)
  /\ - EPSILON <= intersection_t a b q n <= 1 + EPSILON
  /\ p = point_at a b (py_max 0 (py_min 1 (intersection_t a b q n))).
Proof.
  unfold intersect.
  destruct (Qltb_spec (Qabs (Vector2_dot (Vector2_sub b a) n)) EPSILON)
    as [H|Hden]; [discriminate|].
  destruct (Qltb_spec (intersection_t a b q n) (- EPSILON)) as [H|Hlo];
    [discriminate|].
  destruct (Qltb_spec (1 + EPSILON) (intersection_t a b q n)) as [H|Hhi];
    [discriminate|].
  cbn [orb]. intros E. injection E as <-.
  repeat split; now apply Qnot_lt_le.
Qed.

Lemma intersection_t_den (a b q n : Vector2) :
  ~ Vector2_dot (Vector2_sub b a) n == 0 ->
  intersection_t a b q n * Vector2_dot (Vector2_sub b a) n
  == - line_distance a q n.
Proof.
  intros Hnz. unfold intersection_t.
  assert (Hnum : Vector2_dot (Vector2_sub q a) n == - line_distance a q n).
  { unfold line_distance, Vector2_dot, Vector2_sub. cbn [x y]. ring. }
  rewrite Hnum. now field.
Qed.

Lemma clamp_near (t : Q) :
  - EPSILON <= t <= 1 + EPSILON ->
  Qabs (py_max 0 (py_min 1 t) - t) <= EPSILON.
Proof.
  intros [Hlo Hhi]. pose proof EPSILON_pos as He.
  apply Qabs_Qle_condition.
  unfold py_max, py_min.
  destruct (Qltb_spec t 1) as [H1|H1];
    [destruct (Qltb_spec 0 t) as [H0|H0] | destruct (Qltb_spec 0 1) as [H0|H0]];
    split; lra.
Qed.



Lemma clamp_flip (u t : Q) :
  u == 1 - t ->
  py_max 0 (py_min 1 u) == 1 - py_max 0 (py_min 1 t).
Proof.
  intros E. unfold py_max, py_min.
  destruct (Qltb_spec u 1) as [Hu1|Hu1];
    [destruct (Qltb_spec 0 u) as [Hu0|Hu0]
    |destruct (Qltb_spec 0 1) as [Hu0|Hu0]];
  (destruct (Qltb_spec t 1) as [Ht1|Ht1];
    [destruct (Qltb_spec 0 t) as [Ht0|Ht0]
    |destruct (Qltb_spec 0 1) as [Ht0|Ht0]]); lra.
Qed.

Lemma clamp_same (u t : Q) :
  u == t -> py_max 0 (py_min 1 u) == py_max 0 (py_min 1 t).
Proof.
  intros E. unfold py_max, py_min.
  destruct (Qltb_spec u 1) as [Hu1|Hu1];
    [destruct (Qltb_spec 0 u) as [Hu0|Hu0]
    |destruct (Qltb_spec 0 1) as [Hu0|Hu0]];
  (destruct (Qltb_spec t 1) as [Ht1|Ht1];
    [destruct (Qltb_spec 0 t) as [Ht0|Ht0]
    |destruct (Qltb_spec 0 1) as [Ht0|Ht0]]); lra.
Qed.

Lemma Qltb_iff_eq (a b c d : Q) :
  (a < b <-> c < d) -> Qltb a b = Qltb c d.
Proof.
  intros H. destruct (Qltb_spec a b), (Qltb_spec c d); tauto.
Qed.

(** Swapping the endpoints of the segment gives the same answer. *)
Lemma intersect_swap (a b q n : Vector2) :
  opt_veq (intersect a b q n) (intersect b a q n).
Proof.
  unfold intersect.
  set (den := Vector2_dot (Vector2_sub b a) n).
  set (den' := Vector2_dot (Vector2_sub a b) n).
  assert (Hden : den' == - den).
  { unfold den, den', Vector2_dot, Vector2_sub. cbn [x y]. ring. }
  rewrite (Qltb_iff_eq (Qabs den') EPSILON (Qabs den) EPSILON)
    by (rewrite Hden, Qabs_opp; tauto).
  destruct (Qltb_spec (Qabs den) EPSILON) as [Hpar|Hpar]; [exact I|].
  apply Qnot_lt_le, Qabs_ge_nonzero in Hpar.
  set (t := intersection_t a b q n). set (t' := intersection_t b a q n).
  assert (Ht : t' == 1 - t).
  { unfold t, t', intersection_t. fold den. fold den'.
    assert (Hnum : Vector2_dot (Vector2_sub q b) n
                   == Vector2_dot (Vector2_sub q a) n - den).
    { unfold den, Vector2_dot, Vector2_sub. cbn [x y]. ring. }
    rewrite Hnum, Hden. now field. }
  rewrite (Qltb_iff_eq t' (- EPSILON) (1 + EPSILON) t)
    by (rewrite Ht; split; intros; lra).
  rewrite (Qltb_iff_eq (1 + EPSILON) t' t (- EPSILON))
    by (rewrite Ht; split; intros; lra).
  rewrite orb_comm.
  destruct (_ || _); [exact I|].
  pose proof (clamp_flip t' t Ht) as Hc.
  unfold opt_veq, veq, point_at, Vector2_sub. cbn [x y].
  rewrite Hc. split; ring.
Qed.

(** Negating the normal gives the same answer. *)
Lemma intersect_neg_normal (a b q n : Vector2) :
  opt_veq (intersect a b q n) (intersect a b q (Vector2_neg n)).
Proof.
  unfold intersect.
  set (den := Vector2_dot (Vector2_sub b a) n).
  set (den' := Vector2_dot (Vector2_sub b a) (Vector2_neg n)).
  assert (Hden : den' == - den).
  { unfold den, den', Vector2_dot, Vector2_sub, Vector2_neg. cbn [x y].
    ring. }
  rewrite (Qltb_iff_eq (Qabs den') EPSILON (Qabs den) EPSILON)
    by (rewrite Hden, Qabs_opp; tauto).
  destruct (Qltb_spec (Qabs den) EPSILON) as [Hpar|Hpar]; [exact I|].
  apply Qnot_lt_le, Qabs_ge_nonzero in Hpar.
  set (t := intersection_t a b q n).
  set (t' := intersection_t a b q (Vector2_neg n)).
  assert (Ht : t' == t).
  { unfold t, t', intersection_t. fold den. fold den'.
    assert (Hnum : Vector2_dot (Vector2_sub q a) (Vector2_neg n)
                   == - Vector2_dot (Vector2_sub q a) n).
    { unfold Vector2_dot, Vector2_sub, Vector2_neg. cbn [x y]. ring. }
    rewrite Hnum, Hden. now field. }
  rewrite (Qltb_iff_eq t' (- EPSILON) t (- EPSILON))
    by (rewrite Ht; tauto).
  rewrite (Qltb_iff_eq (1 + EPSILON) t' (1 + EPSILON) t)
    by (rewrite Ht; tauto).
  destruct (_ || _); [exact I|].
  pose proof (clamp_same t' t Ht) as Hc.
  unfold opt_veq, veq, point_at. cbn [x y].
  rewrite Hc. split; reflexivity.
Qed.


(** ** Sums around a polygon: change of weight, of starting vertex, of
    orientation *)

Lemma combine_map_pair {A B : Type} (f : A -> B) (l l' : list A) :
  combine (map f l) (map f l')
  = map (fun e => (f (fst e), f (snd e))) (combine l l').
Proof.
  revert l'. induction l as [|a l IH]; intros [|b l']; simpl;
    try reflexivity.
  f_equal. apply IH.
Qed.

Lemma edges_map (f : Vector2 -> Vector2) (vs : list Vector2) :
  edges (map f vs) = map (fun e => (f (fst e), f (snd e))) (edges vs).
Proof.
  unfold edges. rewrite <- combine_map_pair. f_equal.
  rewrite map_app. f_equal.
  - now destruct vs.
  - now destruct vs.
Qed.

Lemma Qsum_map_ext {A : Type} (f g : A -> Q) (l : list A) :
  (forall e, f e == g e) -> Qsum (map f l) == Qsum (map g l).
Proof.
  intros H. induction l as [|e l IH]; [reflexivity|].
  cbn [map Qsum fold_right]. fold (Qsum (map f l)). fold (Qsum (map g l)).
  now rewrite IH, H.
Qed.

Lemma Qsum_map_scale {A : Type} (k : Q) (f : A -> Q) (l : list A) :
  Qsum (map (fun e => k * f e) l) == k * Qsum (map f l).
Proof.
  induction l as [|e l IH]; [cbn; ring|].
  cbn [map Qsum fold_right].
  fold (Qsum (map (fun e => k * f e) l)). fold (Qsum (map f l)).
  rewrite IH. ring.
Qed.

Lemma Qsum_map_plus {A : Type} (f g : A -> Q) (l : list A) :
  Qsum (map (fun e => f e + g e) l) == Qsum (map f l) + Qsum (map g l).
Proof.
  induction l as [|e l IH]; [cbn; ring|].
  cbn [map Qsum fold_right].
  fold (Qsum (map (fun e => f e + g e) l)).
  fold (Qsum (map f l)). fold (Qsum (map g l)).
  rewrite IH. ring.
Qed.

Section ClosedSums.

Variables w w' : Vector2 * Vector2 -> Q.

(** A weight that differs from another by a difference [g b - g a] has the
    same sum around every polygon. *)
Lemma chain_telescope (g : Vector2 -> Q) (a : Vector2) (l : list Vector2) :
  (forall a b, w' (a, b) == w (a, b) + g b - g a) ->
  chain w' a l == chain w a l + g (last l a) - g a.
Proof.
  intros Hw. revert a. induction l as [|b l IH]; intros a.
  - cbn [chain last]. ring.
  - cbn [chain]. rewrite IH, Hw, last_default. ring.
Qed.

Lemma closed_telescope (g : Vector2 -> Q) (vs : list Vector2) :
  (forall a b, w' (a, b) == w (a, b) + g b - g a) ->
  Qsum (map w' (edges vs)) == Qsum (map w (edges vs)).
Proof.
  intros Hw. rewrite !edges_path_sum.
  destruct vs as [|v0 vs']; [reflexivity|].
  cbn [firstn app path_sum].
  rewrite (chain_telescope g v0 (vs' ++ [v0]) Hw), last_last. ring.
Qed.

(** The sum around a polygon does not depend on the starting vertex. *)
Lemma closed_rotate (vs : list Vector2) :
  Qsum (map w (edges (tl vs ++ firstn 1 vs))) == Qsum (map w (edges vs)).
Proof.
  rewrite !edges_path_sum.
  destruct vs as [|v0 [|v1 vs']]; try reflexivity.
  cbn [List.tl firstn app path_sum chain].
  rewrite chain_app_single, last_last.
  ring.
Qed.

(** An antisymmetric weight changes sign when the polygon is reversed. *)
Hypothesis w_antisym : forall a b, w (b, a) == - w (a, b).

Lemma path_sum_rev_antisym (p : list Vector2) :
  path_sum w (rev p) == - path_sum w p.
Proof.
  induction p as [|a p IH]; [reflexivity|].
  destruct p as [|b p']; [reflexivity|].
  cbn [rev] in *. rewrite path_sum_app_single.
  2:{ intros E. apply app_eq_nil in E. destruct E; discriminate. }
  rewrite IH, last_last, w_antisym. cbn [path_sum chain]. ring.
Qed.

Lemma closed_rev_antisym (vs : list Vector2) :
  Qsum (map w (edges (rev vs))) == - Qsum (map w (edges vs)).
Proof.
  rewrite !edges_path_sum.
  destruct vs as [|v0 vs']; [reflexivity|].
  destruct (rev (v0 :: vs')) as [|z r] eqn:E.
  { apply (f_equal (@List.length _)) in E. rewrite length_rev in E.
    discriminate. }
  assert (Hvs : v0 :: vs' = rev r ++ [z]).
  { rewrite <- (rev_involutive (v0 :: vs')), E. reflexivity. }
  cbn [firstn].
  assert (Hrev : (z :: r) ++ [z] = rev (z :: v0 :: vs')).
  { cbn [rev]. cbn [rev] in E. now rewrite E. }
  rewrite Hrev, path_sum_rev_antisym.
  rewrite path_sum_app_single by discriminate.
  replace (last (v0 :: vs') v0) with z by (rewrite Hvs; now rewrite last_last).
  cbn [path_sum chain]. ring.
Qed.

End ClosedSums.

(** ** polygon_area: invariances and closed forms *)

Lemma shoelace_translate (d : Vector2) (vs : list Vector2) :
  shoelace (translate d vs) == shoelace vs.
Proof.
  unfold shoelace, translate. rewrite edges_map, map_map.
  apply (closed_telescope cross _ (fun p => x d * y p - y d * x p)).
  intros a b. unfold cross, Vector2_add. cbn [fst snd x y]. ring.
Qed.

Lemma shoelace_rotate (vs : list Vector2) :
  shoelace (rotate_start vs) == shoelace vs.
Proof. apply closed_rotate. Qed.

Lemma shoelace_scale (k : Q) (vs : list Vector2) :
  shoelace (scale k vs) == k * k * shoelace vs.
Proof.
  unfold shoelace, scale. rewrite edges_map, map_map.
  rewrite <- Qsum_map_scale. apply Qsum_map_ext.
  intros [a b]. unfold cross, Vector2_mul. cbn [fst snd x y]. ring.
Qed.

Lemma polygon_area_of_shoelace (vs vs' : list Vector2) (c : Q) :
  Qabs (shoelace vs') == c * Qabs (shoelace vs) ->
  exists a a',
    polygon_area vs = Ok a /\ polygon_area vs' = Ok a' /\ a' == c * a.
Proof.
  intros H.
  destruct (polygon_area_shoelace vs) as (a & Ha & Ea).
  destruct (polygon_area_shoelace vs') as (a' & Ha' & Ea').
  exists a, a'. split; [exact Ha|]. split; [exact Ha'|].
  rewrite Ea', Ea, H. field.
Qed.





(** ** polygon_centroid: invariances and closed forms *)

(** The result for three vertices or more, by branch. *)
Lemma polygon_centroid_big (vs : list Vector2) :
  (3 <= length vs)%nat ->
  exists c,
    polygon_centroid vs = Ok c
    /\ (Qabs (signed_area vs) < EPSILON -> veq c (vertex_mean vs))
    /\ (~ Qabs (signed_area vs) < EPSILON ->
        ~ signed_area vs == 0 /\ veq c (area_weighted_centroid vs)).
Proof.
  intros Hn. rewrite polygon_centroid_loop by assumption.
  destruct (centroid_loop_sums (edges vs) (mkVector2 0 0, 0))
    as (Hx & Hy & Ha).
  cbn [fst snd x y] in Hx, Hy, Ha. cbv zeta.
  set (st := fold_left centroid_step (edges vs) (mkVector2 0 0, 0)) in *.
  assert (Harea : snd st * (1 # 2) == signed_area vs).
  { rewrite Ha. unfold signed_area, shoelace. ring. }
  destruct (Qltb_spec (Qabs (snd st * (1 # 2))) EPSILON) as [Hs|Hs].
  - rewrite py_div_ok by (apply inject_nat_nonzero; lia). cbn [bind].
    eexists. split; [reflexivity|]. split.
    + intros _. destruct (vertex_loop_sum vs (mkVector2 0 0)) as [Vx Vy].
      unfold vertex_mean. split; cbn [Vector2_mul x y];
        [rewrite Vx|rewrite Vy]; simpl; ring.
    + intros Hnot. exfalso. apply Hnot. now rewrite <- Harea.
  - assert (Hnz : ~ snd st * (1 # 2) == 0).
    { apply Qnot_lt_le in Hs. now apply Qabs_ge_nonzero in Hs. }
    rewrite py_div_ok by (intros E; apply Hnz; lra). cbn [bind].
    eexists. split; [reflexivity|]. split.
    + intros Hlt. exfalso. apply Hs. now rewrite Harea.
    + intros _. split; [now rewrite <- Harea|].
      unfold area_weighted_centroid, weighted_sum.
      split; cbn [Vector2_mul x y]; [rewrite Hx|rewrite Hy];
        rewrite Harea; ring.
Qed.

Lemma Vsum_x (l : list Vector2) : x (Vsum l) == Qsum (map x l).
Proof.
  induction l as [|v l IH]; [reflexivity|].
  cbn [Vsum fold_right map Qsum Vector2_add x].
  fold (Vsum l). fold (Qsum (map x l)). now rewrite IH.
Qed.

Lemma Vsum_y (l : list Vector2) : y (Vsum l) == Qsum (map y l).
Proof.
  induction l as [|v l IH]; [reflexivity|].
  cbn [Vsum fold_right map Qsum Vector2_add y].
  fold (Vsum l). fold (Qsum (map y l)). now rewrite IH.
Qed.

Lemma Qsum_app (l l' : list Q) : Qsum (l ++ l') == Qsum l + Qsum l'.
Proof.
  induction l as [|a l IH].
  - change (Qsum l' == 0 + Qsum l'). ring.
  - cbn [app Qsum fold_right]. fold (Qsum (l ++ l')). fold (Qsum l).
    rewrite IH. ring.
Qed.

Lemma Qsum_rev (l : list Q) : Qsum (rev l) == Qsum l.
Proof.
  induction l as [|a l IH]; [reflexivity|].
  cbn [rev]. rewrite Qsum_app, IH.
  change (Qsum [a]) with (a + 0). change (Qsum (a :: l)) with (a + Qsum l).
  ring.
Qed.

Lemma weighted_sum_x (vs : list Vector2) :
  x (weighted_sum vs)
  == Qsum (map (fun e => (x (fst e) + x (snd e)) * cross e) (edges vs)).
Proof. unfold weighted_sum. now rewrite Vsum_x, map_map. Qed.

Lemma weighted_sum_y (vs : list Vector2) :
  y (weighted_sum vs)
  == Qsum (map (fun e => (y (fst e) + y (snd e)) * cross e) (edges vs)).
Proof. unfold weighted_sum. now rewrite Vsum_y, map_map. Qed.

Lemma weighted_sum_rev (vs : list Vector2) :
  x (weighted_sum (rev vs)) == - x (weighted_sum vs)
  /\ y (weighted_sum (rev vs)) == - y (weighted_sum vs).
Proof.
  rewrite !weighted_sum_x, !weighted_sum_y.
  split; apply closed_rev_antisym; intros a b; unfold cross;
    cbn [fst snd]; ring.
Qed.

Lemma vertex_mean_rev (vs : list Vector2) :
  veq (vertex_mean (rev vs)) (vertex_mean vs).
Proof.
  unfold vertex_mean. rewrite length_rev.
  split; cbn [Vector2_mul x y].
  - now rewrite !Vsum_x, map_rev, Qsum_rev.
  - now rewrite !Vsum_y, map_rev, Qsum_rev.
Qed.


Lemma Qsum_map_translate (f : Vector2 -> Q) (c : Q) (vs : list Vector2)
      (d : Vector2) :
  (forall v, f (Vector2_add v d) == f v + c) ->
  Qsum (map f (translate d vs))
  == Qsum (map f vs) + inject_Z (Z.of_nat (length vs)) * c.
Proof.
  intros Hf. induction vs as [|v vs IH]; [cbn; ring|].
  cbn [translate map Qsum fold_right length].
  fold (translate d vs). fold (Qsum (map f (translate d vs))).
  fold (Qsum (map f vs)). rewrite IH, Hf.
  rewrite Nat2Z.inj_succ, <- Z.add_1_r, inject_Z_plus. ring.
Qed.

Lemma vertex_mean_translate (d : Vector2) (vs : list Vector2) :
  vs <> [] ->
  veq (vertex_mean (translate d vs)) (Vector2_add (vertex_mean vs) d).
Proof.
  intros Hne. unfold vertex_mean.
  assert (Hlen : length (translate d vs) = length vs)
    by apply length_map.
  rewrite Hlen.
  assert (Hnz : ~ inject_Z (Z.of_nat (length vs)) == 0).
  { apply inject_nat_nonzero. destruct vs; [congruence|cbn; lia]. }
  split; cbn [Vector2_mul Vector2_add x y].
  - rewrite !Vsum_x, (Qsum_map_translate x (x d)) by (intros; reflexivity).
    now field.
  - rewrite !Vsum_y, (Qsum_map_translate y (y d)) by (intros; reflexivity).
    now field.
Qed.

Lemma weighted_sum_translate (d : Vector2) (vs : list Vector2) :
  x (weighted_sum (translate d vs))
  == x (weighted_sum vs) + 3 * x d * shoelace vs
  /\ y (weighted_sum (translate d vs))
     == y (weighted_sum vs) + 3 * y d * shoelace vs.
Proof.
  rewrite !weighted_sum_x, !weighted_sum_y.
  unfold translate, shoelace. rewrite edges_map, !map_map.
  rewrite <- !Qsum_map_scale, <- !Qsum_map_plus.
  split.
  - apply (closed_telescope _ _
      (fun p => x d * x p * y p - y d * (x p * x p)
                + 2 * x d * (x d * y p - y d * x p))).
    intros a b. unfold cross, Vector2_add. cbn [fst snd x y]. ring.
  - apply (closed_telescope _ _
      (fun p => x d * (y p * y p) - y d * x p * y p
                + 2 * y d * (x d * y p - y d * x p))).
    intros a b. unfold cross, Vector2_add. cbn [fst snd x y]. ring.
Qed.




(** ** split_polygon_by_line: what the outputs contain *)

Lemma emit_cut_on_line (q n : Vector2) (e : Vector2 * Vector2) (p : Vector2) :
  In p (emit_cut q n e) -> line_distance p q n == 0.
Proof.
  destruct e as [c nx].
  destruct (emit_cut_cases q n c nx) as [[-> _]|(t & -> & Ht)].
  - intros [].
  - intros [<-|[]]. exact Ht.
Qed.

Lemma emit_left_In (q n : Vector2) (e : Vector2 * Vector2) (p : Vector2) :
  In p (emit_left q n e) <->
  (p = fst e /\ (0 <= point_side_of_line (fst e) q n)%Z)
  \/ In p (emit_cut q n e).
Proof.
  unfold emit_left. rewrite in_app_iff.
  destruct (Z.leb_spec 0 (point_side_of_line (fst e) q n)) as [H|H].
  - cbn [In]. intuition.
  - cbn [In]. intuition lia.
Qed.

Lemma emit_right_In (q n : Vector2) (e : Vector2 * Vector2) (p : Vector2) :
  In p (emit_right q n e) <->
  (p = fst e /\ (point_side_of_line (fst e) q n <= 0)%Z)
  \/ In p (emit_cut q n e).
Proof.
  unfold emit_right. rewrite in_app_iff.
  destruct (Z.leb_spec (point_side_of_line (fst e) q n) 0) as [H|H].
  - cbn [In]. intuition.
  - cbn [In]. intuition lia.
Qed.



(** ** split_polygon_by_line: how many points the outputs have *)

Lemma emit_cut_length (q n : Vector2) (e : Vector2 * Vector2) :
  (length (emit_cut q n e) <= 1)%nat.
Proof.
  unfold emit_cut. destruct (_ <? 0)%Z; [|cbn; lia].
  destruct (intersect _ _ _ _); cbn; lia.
Qed.

Lemma emit_side_lengths (q n : Vector2) (e : Vector2 * Vector2) :
  length (emit_left q n e)
  = ((if (0 <=? point_side_of_line (fst e) q n)%Z then 1 else 0)
     + length (emit_cut q n e))%nat
  /\ length (emit_right q n e)
     = ((if (point_side_of_line (fst e) q n <=? 0)%Z then 1 else 0)
        + length (emit_cut q n e))%nat.
Proof.
  unfold emit_left, emit_right. rewrite !length_app.
  destruct (0 <=? _)%Z, (_ <=? 0)%Z; now split.
Qed.

Lemma emit_lengths (q n : Vector2) (es : list (Vector2 * Vector2)) :
  (length (flat_map (emit_left q n) es)
   + length (flat_map (emit_right q n) es)
   = length es
     + length (boundary_vertices (map fst es) q n)
     + 2 * length (flat_map (emit_cut q n) es))%nat
  /\ (length (flat_map (emit_cut q n) es) <= length es)%nat.
Proof.
  induction es as [|e es [IH1 IH2]]; [cbn; lia|].
  pose proof (emit_cut_length q n e) as Hc.
  cbn [flat_map map boundary_vertices filter length].
  fold (boundary_vertices (map fst es) q n).
  rewrite !length_app.
  destruct (emit_side_lengths q n e) as [-> ->].
  destruct (point_side_range (fst e) q n) as [E|[E|E]]; rewrite E;
    cbn [Z.leb Z.eqb Z.compare length]; lia.
Qed.

(** X15 ([split_polygon_by_line]):
    Counting: the two outputs together hold every vertex once, every
    boundary vertex once more and every intersection point twice; there is at
    most one intersection point per edge. *)
Theorem split_output_sizes (vertices : list Vector2) (q n : Vector2) :
  (3 <= length vertices)%nat ->
  exists r,
    split_polygon_by_line vertices q n = Ok r
    /\ (length (left r) + length (right r)
        = length vertices
          + length (boundary_vertices vertices q n)
          + 2 * length (intersections r))%nat
    /\ (length (intersections r) <= length vertices)%nat.
Proof.
  intros Hn. rewrite split_polygon_by_edges by assumption.
  eexists. split; [reflexivity|]. cbn [left right intersections].
  destruct (emit_lengths q n (edges vertices)) as [H1 H2].
  now rewrite edges_fst, edges_length in *.
Qed.

Lemma split_output_sizes_witness :
  (3 <= length square)%nat
  /\ exists r,
       split_polygon_by_line square (mkVector2 50 0) (mkVector2 1 0) = Ok r
       /\ (length (left r) + length (right r)
           = length square
             + length (boundary_vertices square (mkVector2 50 0)
                         (mkVector2 1 0))
             + 2 * length (intersections r))%nat
       /\ (length (intersections r) <= length square)%nat.
Proof.
  split; [simpl; lia|].
  apply (split_output_sizes square (mkVector2 50 0) (mkVector2 1 0)).
  simpl; lia.
Defined.

(** ** split_polygon_by_line: negating the normal swaps the outputs *)

Lemma point_side_neg_normal (p q n : Vector2) :
  point_side_of_line p q (Vector2_neg n) = (- point_side_of_line p q n)%Z.
Proof.
  pose proof EPSILON_pos as He.
  pose proof (line_distance_neg p q n) as Hneg.
  destruct (point_side_cases p q n) as [[E H1]|[[E H1]|[E H1]]];
  destruct (point_side_cases p q (Vector2_neg n))
    as [[E' H2]|[[E' H2]|[E' H2]]];
  rewrite E, E'; try reflexivity; exfalso; lra.
Qed.

Lemma veq_refl (p : Vector2) : veq p p.
Proof. split; reflexivity. Qed.

Lemma list_veq_refl (l : list Vector2) : list_veq l l.
Proof. induction l; constructor; [apply veq_refl|assumption]. Qed.

Lemma list_veq_flat_map {A : Type} (f g : A -> list Vector2) (l : list A) :
  (forall e, list_veq (f e) (g e)) ->
  list_veq (flat_map f l) (flat_map g l).
Proof.
  intros H. induction l as [|e l IH]; [constructor|].
  cbn [flat_map]. apply Forall2_app; [apply H|exact IH].
Qed.

Lemma emit_cut_neg_normal (q n : Vector2) (e : Vector2 * Vector2) :
  list_veq (emit_cut q (Vector2_neg n) e) (emit_cut q n e).
Proof.
  unfold emit_cut. rewrite !point_side_neg_normal.
  rewrite Z.mul_opp_opp.
  destruct (_ <? 0)%Z; [|constructor].
  pose proof (intersect_neg_normal (fst e) (snd e) q n) as H.
  destruct (intersect (fst e) (snd e) q n) as [p|],
           (intersect (fst e) (snd e) q (Vector2_neg n)) as [p'|];
    cbn [opt_veq] in H; try contradiction; [|constructor].
  constructor; [|constructor]. destruct H as [Hx Hy]. split; now symmetry.
Qed.

Lemma emit_neg_normal (q n : Vector2) (e : Vector2 * Vector2) :
  list_veq (emit_left q (Vector2_neg n) e) (emit_right q n e)
  /\ list_veq (emit_right q (Vector2_neg n) e) (emit_left q n e).
Proof.
  unfold emit_left, emit_right. rewrite !point_side_neg_normal.
  replace (0 <=? - point_side_of_line (fst e) q n)%Z
    with (point_side_of_line (fst e) q n <=? 0)%Z
    by (destruct (Z.leb_spec (point_side_of_line (fst e) q n) 0),
                 (Z.leb_spec 0 (- point_side_of_line (fst e) q n));
        try reflexivity; lia).
  replace (- point_side_of_line (fst e) q n <=? 0)%Z
    with (0 <=? point_side_of_line (fst e) q n)%Z
    by (destruct (Z.leb_spec 0 (point_side_of_line (fst e) q n)),
                 (Z.leb_spec (- point_side_of_line (fst e) q n) 0);
        try reflexivity; lia).
  split; (apply Forall2_app; [apply list_veq_refl|apply emit_cut_neg_normal]).
Qed.


(** ** split_polygon_by_line: polygons that touch the line from one side *)

Lemma flat_map_emit_nonneg (q n : Vector2) (es : list (Vector2 * Vector2)) :
  (forall e, In e es ->
     (0 <= point_side_of_line (fst e) q n)%Z
     /\ (0 <= point_side_of_line (snd e) q n)%Z) ->
  flat_map (emit_cut q n) es = []
  /\ flat_map (emit_left q n) es = map fst es
  /\ flat_map (emit_right q n) es
     = filter (fun v => (point_side_of_line v q n <=? 0)%Z) (map fst es).
Proof.
  induction es as [|e es IH]; intros Hall; [now repeat split|].
  destruct IH as (IHc & IHl & IHr).
  { intros e' He'. apply Hall. now right. }
  destruct (Hall e (or_introl eq_refl)) as [H1 H2].
  assert (Hcut : emit_cut q n e = []).
  { unfold emit_cut.
    destruct (Z.ltb_spec (point_side_of_line (fst e) q n
                          * point_side_of_line (snd e) q n) 0) as [Hlt|_];
      [nia|reflexivity]. }
  cbn [flat_map map filter]. rewrite IHc, IHl, IHr.
  unfold emit_left, emit_right. rewrite Hcut.
  apply Z.leb_le in H1. rewrite H1.
  destruct (_ <=? 0)%Z; now repeat split.
Qed.

Lemma split_nonneg_polygon (l : list Vector2) (q n : Vector2) :
  (3 <= length l)%nat ->
  (forall p, In p l -> (0 <= point_side_of_line p q n)%Z) ->
  split_polygon_by_line l q n
  = Ok (mkSplit l
          (filter (fun v => (point_side_of_line v q n <=? 0)%Z) l) []).
Proof.
  intros Hn Hall. rewrite split_polygon_by_edges by assumption.
  destruct (flat_map_emit_nonneg q n (edges l)) as (-> & -> & ->).
  - intros e He. apply edges_In in He. destruct He. split; now apply Hall.
  - now rewrite edges_fst.
Qed.

Lemma filter_boundary_eq (l : list Vector2) (q n : Vector2) :
  (forall p, In p l -> (0 <= point_side_of_line p q n)%Z) ->
  filter (fun v => (point_side_of_line v q n <=? 0)%Z) l
  = boundary_vertices l q n.
Proof.
  intros Hall. unfold boundary_vertices. apply filter_ext_in.
  intros p Hp. specialize (Hall p Hp).
  destruct (Z.leb_spec (point_side_of_line p q n) 0),
           (Z.eqb_spec (point_side_of_line p q n) 0); try reflexivity; lia.
Qed.

(** X17 ([split_polygon_by_line]):
    A polygon with no vertex strictly on the negative side comes back whole
    as [left], in its order; [right] holds its boundary vertices and nothing
    is cut. *)
Theorem split_touching_polygon (vertices : list Vector2) (q n : Vector2) :
  (3 <= length vertices)%nat ->
  (forall v, In v vertices -> (0 <= point_side_of_line v q n)%Z) ->
  split_polygon_by_line vertices q n
  = Ok (mkSplit vertices (boundary_vertices vertices q n) []).
Proof.
  intros Hn Hall. rewrite split_nonneg_polygon by assumption.
  now rewrite filter_boundary_eq.
Qed.

Lemma split_touching_polygon_witness :
  let vs := [mkVector2 50 0; mkVector2 100 0; mkVector2 50 100] in
  (3 <= length vs)%nat
  /\ split_polygon_by_line vs (mkVector2 50 0) (mkVector2 1 0)
     = Ok (mkSplit vs (boundary_vertices vs (mkVector2 50 0) (mkVector2 1 0))
                   []).
Proof.
  intros vs. split; [simpl; lia|].
  apply (split_touching_polygon vs (mkVector2 50 0) (mkVector2 1 0)).
  - simpl; lia.
  - intros v [<-|[<-|[<-|[]]]]; vm_compute; discriminate.
Defined.

Lemma left_output_nonneg (vs : list Vector2) (q n : Vector2) (p : Vector2) :
  In p (flat_map (emit_left q n) (edges vs)) ->
  (0 <= point_side_of_line p q n)%Z.
Proof.
  intros Hp. apply in_flat_map in Hp. destruct Hp as (e & _ & He).
  apply emit_left_In in He. destruct He as [[-> Hs]|Hc]; [exact Hs|].
  pose proof EPSILON_pos as He.
  assert (E : point_side_of_line p q n = 0%Z).
  { apply point_side_zero. rewrite (emit_cut_on_line q n e p Hc). lra. }
  rewrite E. lia.
Qed.



(** * Properties of the level validator *)

Module ValidateJsonProps.

Import String.
Import ValidateJson.

Lemma obind_done {A B : Type} (m : outcome A) (k : A -> outcome B) (b : B) :
  obind m k = Done b -> exists a, m = Done a /\ k a = Done b.
Proof.
  destruct m as [a|e]; cbn [obind]; [|discriminate].
  intros H. now exists a.
Qed.

Lemma getitem_done (v : json) (key : string) (r : json) :
  getitem v key = Done r -> exists d, v = JDict d /\ lookup key d = Some r.
Proof.
  destruct v; cbn [getitem]; try discriminate.
  destruct (lookup key d) eqn:E; [|discriminate].
  intros H. injection H as <-. now exists d.
Qed.

Lemma contains_dict (key : string) (d : list (string * json)) :
  contains key (JDict d)
  = Done (match lookup key d with Some _ => true | None => false end).
Proof. reflexivity. Qed.

Lemma py_le_done (a b : json) (r : bool) :
  py_le a b = Done r ->
  exists qa qb,
    as_number a = Done qa /\ as_number b = Done qb
    /\ r = negb (Qltb qb qa).
Proof.
  unfold py_le. intros H.
  apply obind_done in H. destruct H as (qa & Ha & H).
  apply obind_done in H. destruct H as (qb & Hb & H).
  injection H as <-. now exists qa, qb.
Qed.

Lemma py_lt_done (a b : json) (r : bool) :
  py_lt a b = Done r ->
  exists qa qb,
    as_number a = Done qa /\ as_number b = Done qb /\ r = Qltb qa qb.
Proof.
  unfold py_lt. intros H.
  apply obind_done in H. destruct H as (qa & Ha & H).
  apply obind_done in H. destruct H as (qb & Hb & H).
  injection H as <-. now exists qa, qb.
Qed.

Lemma lacks_x_or_y_false (v : json) :
  lacks_x_or_y v = Done false ->
  contains "x" v = Done true /\ contains "y" v = Done true.
Proof.
  unfold lacks_x_or_y. intros H.
  apply obind_done in H. destruct H as (cx & Hx & H).
  destruct cx; cbn [negb] in H; [|discriminate].
  apply obind_done in H. destruct H as (cy & Hy & H).
  destruct cy; cbn [negb] in H; [|discriminate].
  now split.
Qed.

Lemma app_single_not_nil {A : Type} (l : list A) (a : A) : l ++ [a] <> [].
Proof. destruct l; discriminate. Qed.

Section Checks.

Variable fmt : json -> string.

(** ** No error means that the check passed *)

Lemma check_required_nil (data : json) (errors : list string) :
  check_required data errors = Done [] ->
  errors = []
  /\ forall f, In f required_fields -> contains f data = Done true.
Proof.
  unfold check_required. generalize required_fields as fields.
  intros fields. revert errors.
  induction fields as [|f fields IH]; intros errors H.
  - cbn in H. injection H as ->. split; [reflexivity|]. intros f [].
  - cbn [ofor_each] in H.
    apply obind_done in H. destruct H as (errs' & Hbody & H).
    apply obind_done in Hbody. destruct Hbody as (c & Hc & Hbody).
    apply IH in H. destruct H as [-> Hrest].
    destruct c; cbn [negb] in Hbody; injection Hbody as Hbody.
    + split; [exact Hbody|]. intros f' [<-|Hf']; [exact Hc|now apply Hrest].
    + exfalso. now apply app_single_not_nil in Hbody.
Qed.

Lemma point_of_checked (v : json) (vx vy : json) (gx gy : Q) :
  getitem v "x" = Done vx -> getitem v "y" = Done vy ->
  as_number vx = Done gx -> as_number vy = Done gy ->
  point_of v gx gy.
Proof.
  intros Hx Hy Hnx Hny.
  apply getitem_done in Hx. destruct Hx as (d & -> & Hx).
  apply getitem_done in Hy. destruct Hy as (d' & E & Hy).
  injection E as <-. now exists d, vx, vy.
Qed.

Lemma check_grid_size_nil (d : list (string * json)) (gs : json)
      (errors : list string) :
  lookup "grid_size" d = Some gs ->
  check_grid_size fmt (JDict d) errors = Done [] ->
  errors = []
  /\ exists gx gy, point_of gs gx gy /\ 0 < gx /\ 0 < gy.
Proof.
  intros Hgs H. unfold check_grid_size in H.
  rewrite contains_dict, Hgs in H. cbn [obind getitem] in H.
  rewrite Hgs in H. cbn [obind] in H.
  apply obind_done in H. destruct H as (missing & Hmiss & H).
  destruct missing.
  { injection H as H. now apply app_single_not_nil in H. }
  apply obind_done in H. destruct H as (vx & Hvx & H).
  apply obind_done in H. destruct H as (bx & Hbx & H).
  apply obind_done in H. destruct H as (nonpos & Hnonpos & H).
  destruct nonpos.
  { apply obind_done in H. destruct H as (? & _ & H).
    apply obind_done in H. destruct H as (? & _ & H).
    injection H as H. now apply app_single_not_nil in H. }
  injection H as ->. split; [reflexivity|].
  destruct bx; [discriminate|].
  apply obind_done in Hnonpos. destruct Hnonpos as (vy & Hvy & Hby).
  apply py_le_done in Hbx. destruct Hbx as (gx & z & Hgx & Hz & Ex).
  apply py_le_done in Hby. destruct Hby as (gy & z' & Hgy & Hz' & Ey).
  injection Hz as <-. injection Hz' as <-.
  exists gx, gy. split; [now apply (point_of_checked gs vx vy)|].
  symmetry in Ex, Ey. apply negb_false_iff in Ex, Ey.
  apply Qltb_true in Ex, Ey. now split.
Qed.

Lemma point_of_unique (v : json) (a b a' b' : Q) :
  point_of v a b -> point_of v a' b' -> a = a' /\ b = b'.
Proof.
  intros (d & vx & vy & -> & Hx & Hy & Hnx & Hny)
         (d' & vx' & vy' & E & Hx' & Hy' & Hnx' & Hny').
  injection E as <-. rewrite Hx in Hx'. rewrite Hy in Hy'.
  injection Hx' as <-. injection Hy' as <-.
  rewrite Hnx in Hnx'. rewrite Hny in Hny'.
  injection Hnx' as <-. injection Hny' as <-. now split.
Qed.

Lemma check_player_start_nil (d : list (string * json)) (gs psp : json)
      (gx gy : Q) (errors : list string) :
  lookup "grid_size" d = Some gs ->
  lookup "player_start_position" d = Some psp ->
  point_of gs gx gy ->
  check_player_start fmt (JDict d) errors = Done [] ->
  errors = []
  /\ exists px py, point_of psp px py /\ 0 <= px < gx /\ 0 <= py < gy.
Proof.
  intros Hgs Hpsp Hpt H. unfold check_player_start in H.
  rewrite !contains_dict, Hpsp, Hgs in H. cbn [obind getitem] in H.
  rewrite Hpsp, Hgs in H. cbn [obind] in H.
  apply obind_done in H. destruct H as (missing & Hmiss & H).
  destruct missing.
  { injection H as H. now apply app_single_not_nil in H. }
  apply obind_done in H. destruct H as (outside & Hout & H).
  destruct outside.
  { apply obind_done in H. destruct H as (? & _ & H).
    apply obind_done in H. destruct H as (? & _ & H).
    injection H as H. now apply app_single_not_nil in H. }
  injection H as ->. split; [reflexivity|].
  apply obind_done in Hout. destruct Hout as (vpx & Hvpx & Hout).
  apply obind_done in Hout. destruct Hout as (b1 & Hb1 & Hout).
  destruct b1; [discriminate|].
  apply obind_done in Hout. destruct Hout as (vpx' & Hvpx' & Hout).
  apply obind_done in Hout. destruct Hout as (vgx & Hvgx & Hout).
  apply obind_done in Hout. destruct Hout as (b2 & Hb2 & Hout).
  destruct b2; [discriminate|].
  apply obind_done in Hout. destruct Hout as (vpy & Hvpy & Hout).
  apply obind_done in Hout. destruct Hout as (b3 & Hb3 & Hout).
  destruct b3; [discriminate|].
  apply obind_done in Hout. destruct Hout as (vpy' & Hvpy' & Hout).
  apply obind_done in Hout. destruct Hout as (vgy & Hvgy & Hb4).
  rewrite Hvpx in Hvpx'. injection Hvpx' as <-.
  rewrite Hvpy in Hvpy'. injection Hvpy' as <-.
  apply py_lt_done in Hb1. destruct Hb1 as (px & z & Hpx & Hz & E1).
  injection Hz as <-.
  apply py_le_done in Hb2. destruct Hb2 as (gx' & px' & Hgx' & Hpx' & E2).
  rewrite Hpx in Hpx'. injection Hpx' as <-.
  apply py_lt_done in Hb3. destruct Hb3 as (py & z & Hpy & Hz & E3).
  injection Hz as <-.
  apply py_le_done in Hb4. destruct Hb4 as (gy' & py' & Hgy' & Hpy' & E4).
  rewrite Hpy in Hpy'. injection Hpy' as <-.
  destruct (point_of_unique gs gx gy gx' gy' Hpt
              (point_of_checked gs vgx vgy gx' gy' Hvgx Hvgy Hgx' Hgy'))
    as [<- <-].
  exists px, py. split; [now apply (point_of_checked psp vpx vpy)|].
  symmetry in E1, E2, E3, E4.
  apply Qltb_false in E1, E3. apply negb_false_iff in E2, E4.
  apply Qltb_true in E2, E4. repeat split; assumption.
Qed.

Lemma check_goal_nil (d : list (string * json)) (cd : json)
      (errors : list string) :
  lookup "cell_data" d = Some cd ->
  check_goal (JDict d) errors = Done [] ->
  errors = []
  /\ exists cells,
       cd = JDict cells
       /\ exists pos cell, In (pos, cell) cells /\ is_three cell = true.
Proof.
  intros Hcd H. unfold check_goal in H.
  rewrite contains_dict, Hcd in H. cbn [obind getitem] in H.
  rewrite Hcd in H. cbn [obind] in H.
  apply obind_done in H. destruct H as (cells & Hcells & H).
  destruct (existsb (fun cell => is_three (snd cell)) cells) eqn:E;
    cbn [negb] in H.
  - injection H as ->. split; [reflexivity|].
    destruct cd; try discriminate. injection Hcells as ->.
    exists cells. split; [reflexivity|].
    apply existsb_exists in E. destruct E as ([pos cell] & Hin & H3).
    now exists pos, cell.
  - injection H as H. now apply app_single_not_nil in H.
Qed.

(** ** The checks only add errors *)

Ltac invert_run H :=
  repeat match type of H with
         | obind _ _ = Done _ =>
             let a := fresh "a" in
             let Ha := fresh "Ha" in
             apply obind_done in H; destruct H as (a & Ha & H)
         | (if ?b then _ else _) = Done _ => destruct b
         end;
  match type of H with
  | Done _ = Done _ => injection H as <-
  end.

Lemma check_required_grows (data : json) (errors errors' : list string) :
  check_required data errors = Done errors' ->
  exists more, errors' = errors ++ more.
Proof.
  unfold check_required. generalize required_fields as fields.
  intros fields. revert errors.
  induction fields as [|f fields IH]; intros errors H.
  - cbn in H. injection H as <-. exists []. now rewrite app_nil_r.
  - cbn [ofor_each] in H.
    apply obind_done in H. destruct H as (errs1 & Hbody & H).
    apply IH in H. destruct H as (more & ->).
    apply obind_done in Hbody. destruct Hbody as (c & _ & Hbody).
    destruct c; cbn [negb] in Hbody; injection Hbody as <-.
    + now exists more.
    + eexists. now rewrite <- app_assoc.
Qed.

Lemma check_grid_size_grows (data : json) (errors errors' : list string) :
  check_grid_size fmt data errors = Done errors' ->
  exists more, errors' = errors ++ more.
Proof.
  unfold check_grid_size. intros H. invert_run H;
    solve [ eexists; reflexivity | exists []; now rewrite app_nil_r ].
Qed.

Lemma check_player_start_grows (data : json)
      (errors errors' : list string) :
  check_player_start fmt data errors = Done errors' ->
  exists more, errors' = errors ++ more.
Proof.
  unfold check_player_start. intros H.
  apply obind_done in H. destruct H as (c & _ & H).
  destruct c; [|injection H as <-; exists []; now rewrite app_nil_r].
  apply obind_done in H. destruct H as (psp & _ & H).
  apply obind_done in H. destruct H as (missing & _ & H).
  destruct missing; [injection H as <-; eexists; reflexivity|].
  apply obind_done in H. destruct H as (cg & _ & H).
  destruct cg; [|injection H as <-; exists []; now rewrite app_nil_r].
  apply obind_done in H. destruct H as (gs & _ & H).
  apply obind_done in H. destruct H as (outside & _ & H).
  destruct outside; [|injection H as <-; exists []; now rewrite app_nil_r].
  apply obind_done in H. destruct H as (px & _ & H).
  apply obind_done in H. destruct H as (py & _ & H).
  injection H as <-. eexists; reflexivity.
Qed.

Lemma check_goal_grows (data : json) (errors errors' : list string) :
  check_goal data errors = Done errors' ->
  exists more, errors' = errors ++ more.
Proof.
  unfold check_goal. intros H.
  apply obind_done in H. destruct H as (c & _ & H).
  destruct c; [|injection H as <-; exists []; now rewrite app_nil_r].
  apply obind_done in H. destruct H as (cd & _ & H).
  apply obind_done in H. destruct H as (cells & _ & H).
  destruct (negb _); injection H as <-;
    [eexists; reflexivity | exists []; now rewrite app_nil_r].
Qed.

(** ** A level without error is well formed *)

Lemma validate_level_sound_run (data : json) (errors warnings : list string) :
  validate_level fmt (Loaded data) = Done (true, errors, warnings) ->
  errors = [] /\ exists d, data = JDict d /\ level_ok d.
Proof.
  cbn [validate_level]. intros H.
  apply obind_done in H. destruct H as (e1 & H1 & H).
  apply obind_done in H. destruct H as (e2 & H2 & H).
  apply obind_done in H. destruct H as (e3 & H3 & H).
  apply obind_done in H. destruct H as (e4 & H4 & H).
  apply obind_done in H. destruct H as (w1 & _ & H).
  apply obind_done in H. destruct H as (w2 & _ & H).
  injection H as Hlen <- <-.
  apply Nat.eqb_eq, length_zero_iff_nil in Hlen. subst e4.
  split; [reflexivity|].
  destruct (check_goal_grows _ _ _ H4) as (m4 & E4).
  symmetry in E4. apply app_eq_nil in E4. destruct E4 as [-> _].
  destruct (check_player_start_grows _ _ _ H3) as (m3 & E3).
  symmetry in E3. apply app_eq_nil in E3. destruct E3 as [-> _].
  destruct (check_grid_size_grows _ _ _ H2) as (m2 & E2).
  symmetry in E2. apply app_eq_nil in E2. destruct E2 as [-> _].
  apply check_required_nil in H1. destruct H1 as [_ Hreq].
  assert (Hd : exists d, data = JDict d).
  { pose proof (Hreq "grid_size"%string) as Hc.
    unfold check_grid_size in H2. rewrite Hc in H2 by (cbn; tauto).
    cbn [obind] in H2.
    apply obind_done in H2. destruct H2 as (gs & Hgs & _).
    apply getitem_done in Hgs. destruct Hgs as (d & -> & _). now exists d. }
  destruct Hd as (d & ->). exists d. split; [reflexivity|].
  assert (Hkeys : forall f, In f required_fields -> has_key f d).
  { intros f Hf. specialize (Hreq f Hf). rewrite contains_dict in Hreq.
    unfold has_key. destruct (lookup f d); [discriminate|discriminate]. }
  split; [exact Hkeys|].
  destruct (lookup "grid_size" d) as [gs|] eqn:Egs;
    [|exfalso; apply (Hkeys "grid_size"%string); [cbn; tauto|exact Egs]].
  destruct (lookup "player_start_position" d) as [psp|] eqn:Epsp;
    [|exfalso; apply (Hkeys "player_start_position"%string);
      [cbn; tauto|exact Epsp]].
  destruct (lookup "cell_data" d) as [cd|] eqn:Ecd;
    [|exfalso; apply (Hkeys "cell_data"%string); [cbn; tauto|exact Ecd]].
  destruct (check_grid_size_nil d gs [] Egs H2)
    as (_ & gx & gy & Hgs & Hgx & Hgy).
  destruct (check_player_start_nil d gs psp gx gy [] Egs Epsp Hgs H3)
    as (_ & px & py & Hpsp & Hpx & Hpy).
  destruct (check_goal_nil d cd [] Ecd H4) as (_ & cells & -> & Hgoal).
  exists gs, psp, gx, gy, px, py, cells. tauto.
Qed.

(** ** The checks on an object with entries of the expected types *)

Lemma py_le_num (a b : json) (qa qb : Q) :
  as_number a = Done qa -> as_number b = Done qb ->
  py_le a b = Done (negb (Qltb qb qa)).
Proof. intros Ha Hb. unfold py_le. now rewrite Ha, Hb. Qed.

Lemma py_lt_num (a b : json) (qa qb : Q) :
  as_number a = Done qa -> as_number b = Done qb ->
  py_lt a b = Done (Qltb qa qb).
Proof. intros Ha Hb. unfold py_lt. now rewrite Ha, Hb. Qed.

Lemma lacks_x_or_y_point (v : json) (px py : Q) :
  point_of v px py -> lacks_x_or_y v = Done false.
Proof.
  intros (d & vx & vy & -> & Hx & Hy & _).
  unfold lacks_x_or_y. cbn [contains obind]. rewrite Hx. cbn [negb].
  now rewrite Hy.
Qed.

Lemma check_required_run (d : list (string * json)) (errors : list string) :
  exists more,
    check_required (JDict d) errors = Done (errors ++ more)
    /\ ((forall f, In f required_fields -> has_key f d) -> more = []).
Proof.
  unfold check_required. generalize required_fields as fields.
  intros fields. revert errors.
  induction fields as [|f fields IH]; intros errors.
  - exists []. cbn. now rewrite app_nil_r.
  - cbn [ofor_each]. rewrite contains_dict. cbn [obind].
    destruct (lookup f d) as [v|] eqn:E; cbn [negb obind].
    + destruct (IH errors) as (more & Hrun & Hok). exists more.
      split; [exact Hrun|]. intros H. apply Hok.
      intros f' Hf'. apply H. now right.
    + destruct (IH (errors ++ [("Missing required field: " ++ f)%string]))
        as (more & Hrun & _).
      eexists. rewrite Hrun, <- app_assoc. split; [reflexivity|].
      intros H. exfalso. apply (H f); [now left|exact E].
Qed.

Lemma check_grid_size_run (d : list (string * json)) (gs : json)
      (gx gy : Q) (errors : list string) :
  lookup "grid_size" d = Some gs -> point_of gs gx gy ->
  exists more,
    check_grid_size fmt (JDict d) errors = Done (errors ++ more)
    /\ (0 < gx -> 0 < gy -> more = []).
Proof.
  intros Hgs Hpt. unfold check_grid_size.
  rewrite contains_dict, Hgs. cbn [obind getitem]. rewrite Hgs.
  cbn [obind]. rewrite (lacks_x_or_y_point gs gx gy Hpt). cbn [obind].
  destruct Hpt as (g & vx & vy & -> & Hx & Hy & Hnx & Hny).
  cbn [getitem]. rewrite Hx, Hy. cbn [obind].
  rewrite (py_le_num vx (JNum 0) gx 0 Hnx eq_refl). cbn [obind].
  destruct (Qltb 0 gx) eqn:Ex; cbn [negb obind].
  - rewrite (py_le_num vy (JNum 0) gy 0 Hny eq_refl). cbn [obind].
    destruct (Qltb 0 gy) eqn:Ey; cbn [negb obind].
    + exists []. now rewrite app_nil_r.
    + eexists. split; [reflexivity|]. intros _ H.
      apply Qltb_true in H. congruence.
  - eexists. split; [reflexivity|]. intros H _.
    apply Qltb_true in H. congruence.
Qed.

Lemma check_grid_size_absent (d : list (string * json))
      (errors : list string) :
  lookup "grid_size" d = None ->
  check_grid_size fmt (JDict d) errors = Done errors.
Proof.
  intros H. unfold check_grid_size. now rewrite contains_dict, H.
Qed.

Lemma check_player_start_run (d : list (string * json)) (gs psp : json)
      (gx gy px py : Q) (errors : list string) :
  lookup "grid_size" d = Some gs ->
  lookup "player_start_position" d = Some psp ->
  point_of gs gx gy -> point_of psp px py ->
  exists more,
    check_player_start fmt (JDict d) errors = Done (errors ++ more)
    /\ (0 <= px < gx -> 0 <= py < gy -> more = []).
Proof.
  intros Hgs Hpsp Hg Hp. unfold check_player_start.
  rewrite !contains_dict, Hpsp. cbn [obind getitem]. rewrite Hpsp.
  cbn [obind]. rewrite (lacks_x_or_y_point psp px py Hp). cbn [obind].
  rewrite Hgs. cbn [obind].
  destruct Hg as (g & vgx & vgy & -> & Hgx & Hgy & Hngx & Hngy).
  destruct Hp as (p & vpx & vpy & -> & Hpx & Hpy & Hnpx & Hnpy).
  cbn [getitem]. rewrite Hpx, Hpy, Hgx, Hgy. cbn [obind].
  rewrite (py_lt_num vpx (JNum 0) px 0 Hnpx eq_refl). cbn [obind].
  destruct (Qltb px 0) eqn:E1; cbn [obind].
  { eexists. split; [reflexivity|]. intros [H _] _.
    apply Qltb_false in H. congruence. }
  rewrite (py_le_num vgx vpx gx px Hngx Hnpx). cbn [obind].
  destruct (Qltb px gx) eqn:E2; cbn [negb obind].
  2:{ eexists. split; [reflexivity|]. intros [_ H] _.
      apply Qltb_true in H. congruence. }
  rewrite (py_lt_num vpy (JNum 0) py 0 Hnpy eq_refl). cbn [obind].
  destruct (Qltb py 0) eqn:E3; cbn [obind].
  { eexists. split; [reflexivity|]. intros _ [H _].
    apply Qltb_false in H. congruence. }
  rewrite (py_le_num vgy vpy gy py Hngy Hnpy). cbn [obind].
  destruct (Qltb py gy) eqn:E4; cbn [negb obind].
  2:{ eexists. split; [reflexivity|]. intros _ [_ H].
      apply Qltb_true in H. congruence. }
  exists []. now rewrite app_nil_r.
Qed.

Lemma check_player_start_no_grid (d : list (string * json)) (psp : json)
      (px py : Q) (errors : list string) :
  lookup "grid_size" d = None ->
  lookup "player_start_position" d = Some psp ->
  point_of psp px py ->
  check_player_start fmt (JDict d) errors = Done errors.
Proof.
  intros Hgs Hpsp Hp. unfold check_player_start.
  rewrite !contains_dict, Hpsp. cbn [obind getitem]. rewrite Hpsp.
  cbn [obind]. rewrite (lacks_x_or_y_point psp px py Hp). cbn [obind].
  now rewrite Hgs.
Qed.

Lemma check_player_start_absent (d : list (string * json))
      (errors : list string) :
  lookup "player_start_position" d = None ->
  check_player_start fmt (JDict d) errors = Done errors.
Proof.
  intros H. unfold check_player_start. now rewrite contains_dict, H.
Qed.

Lemma check_goal_run (d cells : list (string * json))
      (errors : list string) :
  lookup "cell_data" d = Some (JDict cells) ->
  exists more,
    check_goal (JDict d) errors = Done (errors ++ more)
    /\ ((exists pos cell, In (pos, cell) cells /\ is_three cell = true) ->
        more = []).
Proof.
  intros Hcd. unfold check_goal.
  rewrite contains_dict, Hcd. cbn [obind getitem]. rewrite Hcd.
  cbn [obind items].
  destruct (existsb (fun cell => is_three (snd cell)) cells) eqn:E;
    cbn [negb].
  - exists []. now rewrite app_nil_r.
  - eexists. split; [reflexivity|]. intros (pos & cell & Hin & H3).
    assert (Ex : existsb (fun cell => is_three (snd cell)) cells = true).
    { apply existsb_exists. now exists (pos, cell). }
    congruence.
Qed.

Lemma check_goal_absent (d : list (string * json)) (errors : list string) :
  lookup "cell_data" d = None -> check_goal (JDict d) errors = Done errors.
Proof.
  intros H. unfold check_goal. now rewrite contains_dict, H.
Qed.

Lemma check_level_id_run (d : list (string * json))
      (warnings : list string) :
  exists warnings', check_level_id (JDict d) warnings = Done warnings'.
Proof.
  unfold check_level_id. rewrite contains_dict. cbn [getitem].
  destruct (lookup "level_id" d) as [v|]; cbn [obind];
    [|now eexists].
  destruct (negb (truthy v)); now eexists.
Qed.

Lemma check_difficulty_run (d : list (string * json))
      (warnings : list string) :
  (forall v, lookup "difficulty" d = Some v ->
             exists q, as_number v = Done q) ->
  exists warnings', check_difficulty fmt (JDict d) warnings = Done warnings'.
Proof.
  intros Hty. unfold check_difficulty. rewrite contains_dict. cbn [getitem].
  destruct (lookup "difficulty" d) as [v|]; cbn [obind]; [|now eexists].
  destruct (Hty v eq_refl) as (q & Hq).
  rewrite (py_lt_num v (JNum 1) q 1 Hq eq_refl). cbn [obind].
  destruct (Qltb q 1); cbn [obind]; [now eexists|].
  rewrite (py_lt_num (JNum 5) v 5 q eq_refl Hq). cbn [obind].
  destruct (Qltb 5 q); now eexists.
Qed.

Lemma validate_errors_run {T : Type} (d : list (string * json))
      (K : list string -> outcome T) :
  (forall gs, lookup "grid_size" d = Some gs ->
              exists gx gy, point_of gs gx gy) ->
  (forall psp, lookup "player_start_position" d = Some psp ->
               exists px py, point_of psp px py) ->
  (forall cd, lookup "cell_data" d = Some cd ->
              exists cells, cd = JDict cells) ->
  exists errors,
    (e1 <-- check_required (JDict d) [] ;;
     e2 <-- check_grid_size fmt (JDict d) e1 ;;
     e3 <-- check_player_start fmt (JDict d) e2 ;;
     e4 <-- check_goal (JDict d) e3 ;;
     K e4) = K errors
    /\ (level_ok d -> errors = []).
Proof.
  intros Tgs Tpsp Tcd.
  destruct (check_required_run d []) as (m1 & R1 & K1).
  rewrite R1. cbn [obind app].
  assert (S2 : exists m2,
             check_grid_size fmt (JDict d) m1 = Done (m1 ++ m2)
             /\ (level_ok d -> m2 = [])).
  { destruct (lookup "grid_size" d) as [gs|] eqn:Egs.
    - destruct (Tgs gs eq_refl) as (gx & gy & Hg).
      destruct (check_grid_size_run d gs gx gy m1 Egs Hg)
        as (m2 & R2 & K2).
      exists m2. split; [exact R2|].
      intros (_ & gs' & psp & gx' & gy' & px & py & cells
              & Hgs & _ & Hg' & _ & Hgx & Hgy & _).
      rewrite Egs in Hgs. injection Hgs as <-.
      destruct (point_of_unique gs gx gy gx' gy' Hg Hg') as [<- <-].
      now apply K2.
    - exists []. rewrite app_nil_r. split; [|reflexivity].
      now apply check_grid_size_absent. }
  destruct S2 as (m2 & R2 & K2). rewrite R2. cbn [obind].
  assert (S3 : exists m3,
             check_player_start fmt (JDict d) (m1 ++ m2)
             = Done ((m1 ++ m2) ++ m3)
             /\ (level_ok d -> m3 = [])).
  { destruct (lookup "player_start_position" d) as [psp|] eqn:Epsp.
    - destruct (Tpsp psp eq_refl) as (px & py & Hp).
      destruct (lookup "grid_size" d) as [gs|] eqn:Egs.
      + destruct (Tgs gs eq_refl) as (gx & gy & Hg).
        destruct (check_player_start_run d gs psp gx gy px py (m1 ++ m2)
                    Egs Epsp Hg Hp) as (m3 & R3 & K3).
        exists m3. split; [exact R3|].
        intros (_ & gs' & psp' & gx' & gy' & px' & py' & cells
                & Hgs & Hpsp & Hg' & Hp' & _ & _ & Hpx & Hpy & _).
        rewrite Egs in Hgs. injection Hgs as <-.
        rewrite Epsp in Hpsp. injection Hpsp as <-.
        destruct (point_of_unique gs gx gy gx' gy' Hg Hg') as [<- <-].
        destruct (point_of_unique psp px py px' py' Hp Hp') as [<- <-].
        now apply K3.
      + exists []. rewrite app_nil_r. split; [|reflexivity].
        now apply (check_player_start_no_grid d psp px py).
    - exists []. rewrite app_nil_r. split; [|reflexivity].
      now apply check_player_start_absent. }
  destruct S3 as (m3 & R3 & K3). rewrite R3. cbn [obind].
  assert (S4 : exists m4,
             check_goal (JDict d) ((m1 ++ m2) ++ m3)
             = Done (((m1 ++ m2) ++ m3) ++ m4)
             /\ (level_ok d -> m4 = [])).
  { destruct (lookup "cell_data" d) as [cd|] eqn:Ecd.
    - destruct (Tcd cd eq_refl) as (cells & ->).
      destruct (check_goal_run d cells ((m1 ++ m2) ++ m3) Ecd)
        as (m4 & R4 & K4).
      exists m4. split; [exact R4|].
      intros (_ & gs' & psp' & gx' & gy' & px' & py' & cells'
              & _ & _ & _ & _ & _ & _ & _ & _ & Hcd & Hgoal).
      rewrite Ecd in Hcd. injection Hcd as <-. now apply K4.
    - exists []. rewrite app_nil_r. split; [|reflexivity].
      now apply check_goal_absent. }
  destruct S4 as (m4 & R4 & K4). rewrite R4. cbn [obind].
  exists (((m1 ++ m2) ++ m3) ++ m4). split; [reflexivity|].
  intros Hok. rewrite (K1 (proj1 Hok)), (K2 Hok), (K3 Hok), (K4 Hok).
  reflexivity.
Qed.

Lemma validate_level_typed_run (d : list (string * json)) :
  schema_typed d ->
  exists errors warnings,
    validate_level fmt (Loaded (JDict d))
    = Done ((List.length errors =? 0)%nat, errors, warnings)
    /\ (level_ok d -> errors = []).
Proof.
  intros (Tgs & Tpsp & Tcd & Tdiff).
  destruct (validate_errors_run d
              (fun errors =>
                 warnings <-- check_level_id (JDict d) [] ;;
                 warnings <-- check_difficulty fmt (JDict d) warnings ;;
                 Done ((List.length errors =? 0)%nat, errors, warnings))
              Tgs Tpsp Tcd) as (errors & E & Hok).
  destruct (check_level_id_run d []) as (w1 & R5).
  destruct (check_difficulty_run d w1 Tdiff) as (w2 & R6).
  exists errors, w2. split; [|exact Hok].
  etransitivity; [exact E|]. cbn beta. rewrite R5. cbn [obind].
  rewrite R6. reflexivity.
Qed.

Lemma level_ok_entries_typed (d : list (string * json)) :
  level_ok d ->
  (forall gs, lookup "grid_size" d = Some gs ->
              exists gx gy, point_of gs gx gy)
  /\ (forall psp, lookup "player_start_position" d = Some psp ->
                  exists px py, point_of psp px py)
  /\ (forall cd, lookup "cell_data" d = Some cd ->
                 exists cells, cd = JDict cells).
Proof.
  intros (_ & gs & psp & gx & gy & px & py & cells
          & Hgs & Hpsp & Hg & Hp & _ & _ & _ & _ & Hcd & _).
  repeat split.
  - intros gs' E. rewrite Hgs in E. injection E as <-. now exists gx, gy.
  - intros psp' E. rewrite Hpsp in E. injection E as <-. now exists px, py.
  - intros cd E. rewrite Hcd in E. injection E as <-. now exists cells.
Qed.

End Checks.

(** ** What [validate_level] returns *)




Lemma sample_level_outside_typed : schema_typed sample_level_outside.
Proof.
  repeat split; intros v E; vm_compute in E; injection E as <-.
  - exists 8, 6. exists [("x", JNum 8); ("y", JNum 6)]%string.
    exists (JNum 8), (JNum 6). repeat split; reflexivity.
  - exists 8, 4. exists [("x", JNum 8); ("y", JNum 4)]%string.
    exists (JNum 8), (JNum 4). repeat split; reflexivity.
  - now eexists.
  - now exists 7.
Defined.


(** X21 ([validate_level], missing grid width): when [grid_size] is an
    object without ["x"] and [player_start_position] is an object with
    ["x"] and ["y"] whose ["x"] is a number that is not negative, the check
    of the start position reads [gs['x']] and [validate_level] raises
    [KeyError], instead of returning the error that it recorded for
    [grid_size]. *)
Theorem validate_level_key_error (fmt : json -> string)
        (d g p : list (string * json)) (vx vy : json) (px : Q) :
  lookup "grid_size" d = Some (JDict g) ->
  lookup "x" g = None ->
  lookup "player_start_position" d = Some (JDict p) ->
  lookup "x" p = Some vx ->
  lookup "y" p = Some vy ->
  as_number vx = Done px ->
  0 <= px ->
  validate_level fmt (Loaded (JDict d)) = Throw KeyError.
Proof.
  intros Hgs Hgx Hpsp Hpx Hpy Hnx Hpos. cbn [validate_level].
  destruct (check_required_run d []) as (m1 & R1 & _).
  rewrite R1. cbn [obind app].
  unfold check_grid_size. rewrite contains_dict, Hgs.
  cbn [obind getitem]. rewrite Hgs. cbn [obind].
  unfold lacks_x_or_y at 1. cbn [contains obind]. rewrite Hgx.
  cbn [negb obind].
  unfold check_player_start. rewrite !contains_dict, Hpsp.
  cbn [obind getitem]. rewrite Hpsp. cbn [obind].
  unfold lacks_x_or_y. cbn [contains obind]. rewrite Hpx.
  cbn [negb obind]. rewrite Hpy. cbn [negb obind]. rewrite Hgs.
  cbn [obind getitem]. rewrite Hpx. cbn [obind].
  rewrite (py_lt_num vx (JNum 0) px 0 Hnx eq_refl). cbn [obind].
  apply Qltb_false in Hpos. rewrite Hpos. cbn [obind].
  rewrite Hgx. reflexivity.
Qed.

Lemma validate_level_key_error_witness :
  validate_level sample_fmt (Loaded (JDict sample_level_no_x))
  = Throw KeyError.
Proof.
  apply (validate_level_key_error sample_fmt sample_level_no_x
           [("y", JNum 6)]%string
           [("x", JNum 1); ("y", JNum 4)]%string
           (JNum 1) (JNum 4) 1);
    try reflexivity.
  discriminate.
Defined.

(** X22 ([validate_level], difficulty that is no number): for a well-formed
    level whose [difficulty] is present and is neither a number nor a
    boolean, the comparison [data['difficulty'] < 1] raises [TypeError]:
    [validate_level] returns neither a verdict nor a warning. *)
Theorem validate_level_difficulty_type_error (fmt : json -> string)
        (d : list (string * json)) (v : json) :
  level_ok d ->
  lookup "difficulty" d = Some v ->
  as_number v = Throw TypeError ->
  validate_level fmt (Loaded (JDict d)) = Throw TypeError.
Proof.
  intros Hok Hd Hv.
  destruct (level_ok_entries_typed d Hok) as (Tgs & Tpsp & Tcd).
  destruct (validate_errors_run fmt d
              (fun errors =>
                 warnings <-- check_level_id (JDict d) [] ;;
                 warnings <-- check_difficulty fmt (JDict d) warnings ;;
                 Done ((List.length errors =? 0)%nat, errors, warnings))
              Tgs Tpsp Tcd) as (errors & E & _).
  etransitivity; [exact E|]. cbn beta.
  destruct (check_level_id_run d []) as (w1 & R5). rewrite R5.
  cbn [obind]. unfold check_difficulty. rewrite contains_dict, Hd.
  cbn [obind getitem]. rewrite Hd. cbn [obind].
  unfold py_lt at 1. rewrite Hv. reflexivity.
Qed.

Lemma sample_level_text_difficulty_ok :
  level_ok sample_level_text_difficulty.
Proof.
  split.
  - intros f Hf. cbn in Hf.
    repeat (destruct Hf as [<-|Hf]; [discriminate|]). destruct Hf.
  - exists (JDict [("x", JNum 8); ("y", JNum 6)]%string),
           (JDict [("x", JNum 1); ("y", JNum 4)]%string),
           8, 6, 1, 4, [("(6, 4)", JNum 3)]%string.
    repeat split; try reflexivity; try discriminate.
    + exists [("x", JNum 8); ("y", JNum 6)]%string, (JNum 8), (JNum 6).
      repeat split; reflexivity.
    + exists [("x", JNum 1); ("y", JNum 4)]%string, (JNum 1), (JNum 4).
      repeat split; reflexivity.
    + exists "(6, 4)"%string, (JNum 3). split; [now left|reflexivity].
Defined.

Lemma validate_level_difficulty_type_error_witness :
  validate_level sample_fmt (Loaded (JDict sample_level_text_difficulty))
  = Throw TypeError.
Proof.
  apply (validate_level_difficulty_type_error sample_fmt
           sample_level_text_difficulty (JStr "hard")).
  - exact sample_level_text_difficulty_ok.
  - reflexivity.
  - reflexivity.
Defined.

(** ** The loop of [main] *)

Lemma ofor_each_invariant {St A : Type} (body : St -> A -> outcome St)
      (I : list A -> St -> Prop) :
  (forall seen s a s',
      I seen s -> body s a = Done s' -> I (seen ++ [a]) s') ->
  forall l seen s s',
    I seen s -> ofor_each l body s = Done s' -> I (seen ++ l) s'.
Proof.
  intros Hstep. induction l as [|a l IH]; intros seen s s' HI H.
  - cbn in H. injection H as <-. now rewrite app_nil_r.
  - cbn [ofor_each] in H.
    apply obind_done in H. destruct H as (s1 & H1 & H).
    replace (seen ++ a :: l) with ((seen ++ [a]) ++ l)
      by now rewrite <- app_assoc.
    apply (IH _ s1); [|exact H]. now apply (Hstep seen s).
Qed.

Lemma ofor_each_throw {St A : Type} (body : St -> A -> outcome St)
      (before after : list A) (a : A) (e : py_exn) :
  (forall g, In g before -> forall s, exists s', body s g = Done s') ->
  (forall s, body s a = Throw e) ->
  forall s, ofor_each (before ++ a :: after) body s = Throw e.
Proof.
  intros Hbefore Ha. induction before as [|b before IH]; intros s.
  - cbn [app ofor_each]. now rewrite Ha.
  - cbn [app ofor_each].
    destruct (Hbefore b (or_introl eq_refl) s) as (s' & ->). cbn [obind].
    apply IH. intros g Hg. apply Hbefore. now right.
Qed.

Lemma filter_length_zero {A : Type} (p : A -> bool) (l : list A) :
  List.length (filter p l) = 0%nat <-> forall a, In a l -> p a = false.
Proof.
  induction l as [|a l IH]; cbn [filter].
  - split; [intros _ a []|reflexivity].
  - destruct (p a) eqn:E.
    + split; [discriminate|]. intros H.
      specialize (H a (or_introl eq_refl)). congruence.
    + rewrite IH. split.
      * intros H b [<-|Hb]; [exact E|now apply H].
      * intros H b Hb. apply H. now right.
Qed.

Lemma main_counts (fmt : json -> string) (files : list load_result)
      (code : Z) (s : summary) :
  main fmt (Some files) = Done (code, Some s) ->
  files <> []
  /\ code = (if (invalid_levels s =? 0)%nat then 0%Z else 1%Z)
  /\ total_levels s = List.length files
  /\ valid_levels s
     = List.length (filter (fun f => is_valid (validate_level fmt f)) files)
  /\ invalid_levels s
     = List.length
         (filter (fun f => negb (is_valid (validate_level fmt f))) files)
  /\ total_warnings s
     = list_sum (map (fun f => warning_count (validate_level fmt f)) files).
Proof.
  destruct files as [|f files]; [discriminate|].
  intros H. split; [discriminate|].
  cbn [main] in H. apply obind_done in H. destruct H as (s1 & Hloop & H).
  injection H as <- <-. split; [reflexivity|].
  match type of Hloop with
  | ofor_each ?l ?b ?s0 = _ =>
      apply (ofor_each_invariant b
               (fun seen s =>
                  total_levels s = List.length seen
                  /\ valid_levels s
                     = List.length
                         (filter (fun f => is_valid (validate_level fmt f))
                                 seen)
                  /\ invalid_levels s
                     = List.length
                         (filter
                            (fun f => negb (is_valid (validate_level fmt f)))
                            seen)
                  /\ total_warnings s
                     = list_sum
                         (map (fun f => warning_count (validate_level fmt f))
                              seen))) with (seen := []) in Hloop
  end.
  - exact Hloop.
  - clear. intros seen s a s' (It & Iv & Ii & Iw) Hbody.
    apply obind_done in Hbody. destruct Hbody as (res & Hres & Hbody).
    destruct res as [[valid errors] warnings].
    rewrite !filter_app, !length_app, map_app, list_sum_app.
    cbn [filter map list_sum List.length]. rewrite Hres.
    cbn [is_valid warning_count].
    destruct valid, warnings as [|w ws]; injection Hbody as <-;
      cbn [total_levels valid_levels invalid_levels total_warnings negb
           List.length list_sum fold_right]; lia.
  - cbn. repeat split; reflexivity.
Qed.

(** X23 ([main], exit code): [main] returns 0 or 1, and it returns 0
    exactly when the directory of the levels exists, holds one level file at
    least, and [validate_level] reports every file as valid. *)
Theorem main_exit_code (fmt : json -> string)
        (levels_dir : option (list load_result)) (code : Z)
        (printed : option summary) :
  main fmt levels_dir = Done (code, printed) ->
  (code = 0%Z \/ code = 1%Z)
  /\ (code = 0%Z <->
      exists files,
        levels_dir = Some files /\ files <> []
        /\ forall f, In f files -> is_valid (validate_level fmt f) = true).
Proof.
  intros H. destruct levels_dir as [files|].
  2:{ injection H as <- <-. split; [now right|].
      split; [discriminate|]. intros (files & E & _). discriminate E. }
  destruct printed as [s|].
  2:{ destruct files as [|f files].
      - injection H as <-. split; [now right|].
        split; [discriminate|]. intros (files & E & Hne & _).
        injection E as <-. now destruct Hne.
      - cbn [main] in H. apply obind_done in H.
        destruct H as (s1 & _ & H). discriminate H. }
  destruct (main_counts fmt files code s H)
    as (Hne & -> & _ & _ & Hinv & _).
  split; [destruct (invalid_levels s =? 0)%nat; tauto|].
  destruct (invalid_levels s =? 0)%nat eqn:E.
  - split; [|reflexivity]. intros _. exists files.
    split; [reflexivity|]. split; [exact Hne|].
    apply Nat.eqb_eq in E. rewrite Hinv in E.
    intros f Hf. apply negb_false_iff.
    now apply (proj1 (filter_length_zero _ files) E).
  - split; [discriminate|]. intros (files' & Ef & _ & Hall).
    injection Ef as <-. exfalso.
    apply Nat.eqb_neq in E. apply E. rewrite Hinv.
    apply filter_length_zero. intros f Hf. now rewrite (Hall f Hf).
Qed.

Lemma main_exit_code_witness :
  (0%Z = 0%Z \/ 0%Z = 1%Z)
  /\ (0%Z = 0%Z <->
      exists files,
        Some [Loaded (JDict sample_level)] = Some files /\ files <> []
        /\ forall f, In f files ->
                     is_valid (validate_level sample_fmt f) = true).
Proof.
  apply (main_exit_code sample_fmt (Some [Loaded (JDict sample_level)]) 0%Z
           (Some (mkSummary 1 1 0 0))).
  vm_compute. reflexivity.
Defined.

(** X24 ([main], summary): when [main] prints its summary, the total is the
    number of level files, the valid and the invalid counts are the numbers
    of files that [validate_level] reports as valid and as invalid, they add
    up to the total, and the warning count is the sum of the numbers of
    warnings of the files. *)
Theorem main_summary (fmt : json -> string) (files : list load_result)
        (code : Z) (s : summary) :
  main fmt (Some files) = Done (code, Some s) ->
  total_levels s = List.length files
  /\ valid_levels s
     = List.length (filter (fun f => is_valid (validate_level fmt f)) files)
  /\ invalid_levels s
     = List.length
         (filter (fun f => negb (is_valid (validate_level fmt f))) files)
  /\ (valid_levels s + invalid_levels s = total_levels s)%nat
  /\ total_warnings s
     = list_sum (map (fun f => warning_count (validate_level fmt f)) files).
Proof.
  intros H.
  destruct (main_counts fmt files code s H)
    as (_ & _ & Ht & Hv & Hi & Hw).
  repeat split; try assumption.
  rewrite Ht, Hv, Hi. clear. induction files as [|f files IH]; cbn.
  - reflexivity.
  - destruct (is_valid (validate_level fmt f)); cbn; lia.
Qed.

Lemma main_summary_witness :
  let files := [Loaded (JDict sample_level);
                Loaded (JDict sample_level_outside);
                LoadException "Permission denied"] in
  let s := mkSummary 3 1 2 1 in
  total_levels s = List.length files
  /\ valid_levels s
     = List.length
         (filter (fun f => is_valid (validate_level sample_fmt f)) files)
  /\ invalid_levels s
     = List.length
         (filter (fun f => negb (is_valid (validate_level sample_fmt f)))
                 files)
  /\ (valid_levels s + invalid_levels s = total_levels s)%nat
  /\ total_warnings s
     = list_sum
         (map (fun f => warning_count (validate_level sample_fmt f)) files).
Proof.
  intros files s. apply (main_summary sample_fmt files 1%Z s).
  vm_compute. reflexivity.
Defined.

(** X25 ([main], a file that raises): [main] does not catch what
    [validate_level] raises.  When [validate_level] raises for a level file
    and returns for the files before it, [main] raises the same exception
    and prints no summary, whatever files follow. *)
Theorem main_raises (fmt : json -> string)
        (before after : list load_result) (f : load_result) (e : py_exn) :
  (forall g, In g before -> exists r, validate_level fmt g = Done r) ->
  validate_level fmt f = Throw e ->
  main fmt (Some (before ++ f :: after)) = Throw e.
Proof.
  intros Hbefore Hf.
  assert (Hcons : exists a l, before ++ f :: after = a :: l)
    by (destruct before; cbn; eauto).
  destruct Hcons as (a & l & Hcons).
  unfold main. rewrite Hcons, <- Hcons.
  rewrite ofor_each_throw with (e := e); [reflexivity| |].
  - intros g Hg s. destruct (Hbefore g Hg) as ([[valid errors] warnings] & ->).
    cbn [obind]. destruct warnings; eauto.
  - intros s. now rewrite Hf.
Qed.

Lemma main_raises_witness :
  main sample_fmt
       (Some ([Loaded (JDict sample_level)]
              ++ Loaded (JDict sample_level_no_x)
              :: [Loaded (JDict sample_level_outside)]))
  = Throw KeyError.
Proof.
  apply (main_raises sample_fmt [Loaded (JDict sample_level)]
           [Loaded (JDict sample_level_outside)]
           (Loaded (JDict sample_level_no_x)) KeyError).
  - intros g [<-|[]]. eexists. vm_compute. reflexivity.
  - vm_compute. reflexivity.
Defined.

End ValidateJsonProps.
